(** * XDPoSChain: the native contract-creation tracer and the gas estimator

    A shallow embedding of [eth/tracers/native/contract.go] (the
    [contractTracer], its hooks and the bytecode scanner [findOpcodes]) and
    of the gas-estimation engine exercised by
    [accounts/abi/bind/backends/simulated_test.go]. *)

From Stdlib Require Import ZArith NArith Lia Bool.
From Stdlib Require Import Strings.String Strings.Ascii Strings.Byte.
From Stdlib Require Import DecimalString DecimalN.
From Equations Require Import Equations.
From Equations.Prop Require Import Logic.
From stdpp Require Import gmap strings list.

Local Open Scope nat_scope.

(** ** Collaborators

    The tracer calls into [package vm], [encoding/json] and two rendering
    helpers of its own package. None of their bodies is part of the files
    verified here, so each is an interface and the results below hold for
    every implementation of it. *)

#[global] Instance byte_eq_decision : EqDecision byte := Byte.byte_eq_dec.

Module vm.

(** [type OpCode byte] *)
Abbreviation OpCode := byte.

Class Ops : Type := {
  (** [func (op OpCode) IsPush() bool] *)
  IsPush : OpCode -> bool;
  (** [func StringToOp(str string) OpCode] *)
  StringToOp : string -> OpCode;
  (** the instruction codes [vm.CREATE] and [vm.CREATE2] *)
  CREATE : OpCode;
  CREATE2 : OpCode
}.

End vm.

(** Go's [error]: an interface value, [nil] when there is no error. A
    non-nil error is represented by its message. *)
Definition error : Type := string.

(** [common.Address], a [[20]byte]. *)
Definition Address : Type := list byte.

(** [json.RawMessage], a [[]byte]. *)
Definition RawMessage : Type := list byte.

(** [int(op - 95)]: the subtraction is carried out on [OpCode], an unsigned
    8-bit type, so it wraps around modulo 256 before it is widened. *)
Definition push_operands (op : vm.OpCode) : nat :=
  N.to_nat ((Byte.to_N op + 256 - 95) mod 256).

(** ** The bytecode scanner *)

Section Scanner.
Context {VM : vm.Ops}.

(** What one turn of the [for] loop of [findOpcodes] does with the cursor
    [i]: leave the function with a value, go round again with a new
    cursor, or fault on an index outside the slice. *)
Inductive step_result : Type :=
| Return (b : bool)
| Advance (i' : nat)
| IndexPanic.

Definition scan_step (bytecode : list byte) (opcode : vm.OpCode) (i : nat)
  : step_result :=
  if i <? length bytecode then
    match bytecode !! i with
    | None => IndexPanic
    | Some op =>
        if vm.IsPush op then Advance (i + push_operands op + 1)
        else if Byte.eqb op opcode then Return true
        else Advance (i + 1)
    end
  else Return false.

Lemma scan_step_advance bytecode opcode i i' :
  scan_step bytecode opcode i = Advance i' ->
  i < length bytecode /\ i < i'.
Proof.
  unfold scan_step.
  destruct (Nat.ltb_spec i (length bytecode)) as [Hlt|Hge]; [|discriminate].
  destruct (bytecode !! i) as [op|]; [|discriminate].
  destruct (vm.IsPush op); [intros [= <-]; lia|].
  destruct (Byte.eqb op opcode); [discriminate|].
  intros [= <-]; lia.
Qed.

(** The loop, started at cursor [i]. [None] stands for a run-time panic. *)
Equations? findOpcodes_from (bytecode : list byte) (opcode : vm.OpCode)
  (i : nat) : option bool by wf (length bytecode - i) lt :=
findOpcodes_from bytecode opcode i
  with inspect (scan_step bytecode opcode i) := {
  | exist _ (Return b) _ => Some b
  | exist _ (Advance i') Hstep => findOpcodes_from bytecode opcode i'
  | exist _ IndexPanic _ => None }.
Proof. apply scan_step_advance in Hstep. lia. Qed.

(** [func findOpcodes(bytecode []byte, opcode vm.OpCode) bool] *)
Definition findOpcodes (bytecode : list byte) (opcode : vm.OpCode)
  : option bool :=
  findOpcodes_from bytecode opcode 0.

(** *** Instruction boundaries

    The decoding of a byte sequence into instructions, told without
    reference to any target: an instruction starts at offset 0, and one
    starts right after each instruction, a push-class instruction being
    followed by its immediate operand. *)

Definition next_instr (i : nat) (op : vm.OpCode) : nat :=
  if vm.IsPush op then i + push_operands op + 1 else i + 1.

Inductive instr_at (bytecode : list byte) : nat -> Prop :=
| instr_at_start : instr_at bytecode 0
| instr_at_next i op :
    instr_at bytecode i -> bytecode !! i = Some op ->
    instr_at bytecode (next_instr i op).

(** The byte at offset [j] is the instruction byte of an instruction. *)
Definition genuine_at (bytecode : list byte) (opcode : vm.OpCode) (j : nat)
  : Prop :=
  instr_at bytecode j /\ bytecode !! j = Some opcode.

(** The byte at offset [j] belongs to the immediate operand of a
    push-class instruction. *)
Definition push_data_at (bytecode : list byte) (j : nat) : Prop :=
  exists i op,
    instr_at bytecode i /\ bytecode !! i = Some op /\
    vm.IsPush op = true /\ i < j <= i + push_operands op.

End Scanner.

(** ** The contract-creation tracer *)

(** [type contractTracerConfig struct] *)
Record contractTracerConfig : Type := {
  OpCode : string;       (* Target opcode to trace *)
  WithByteCode : bool    (* If true, bytecode will be collected *)
}.

(** The zero value that [var config contractTracerConfig] declares. *)
Definition zero_config : contractTracerConfig :=
  {| OpCode := EmptyString; WithByteCode := false |}.

Module json.

(** [encoding/json], at the two types the tracer uses it at. [Unmarshal]
    decodes into a zero-valued configuration. *)
Class Codec : Type := {
  (** [json.Unmarshal(cfg, &config)] *)
  Unmarshal : RawMessage -> contractTracerConfig + error;
  (** [json.Marshal(t.Addrs)] *)
  Marshal : gmap string string -> RawMessage + error
}.

End json.

(** The helpers [addrToHex] and [bytesToHex] of [package native]. *)
Class HexRender : Type := {
  addrToHex : Address -> string;
  bytesToHex : list byte -> string
}.

(** [type contractTracer struct] *)
Record contractTracer : Type := {
  Addrs : gmap string string;
  config : contractTracerConfig;
  interrupt : N;           (* uint32: atomic flag to signal interruption *)
  reason : option error    (* textual reason for the interruption *)
}.

Definition set_Addrs (t : contractTracer) (m : gmap string string)
  : contractTracer :=
  {| Addrs := m; config := config t;
     interrupt := interrupt t; reason := reason t |}.

Definition set_OpCode (t : contractTracer) (name : string) : contractTracer :=
  {| Addrs := Addrs t;
     config := {| OpCode := name; WithByteCode := WithByteCode (config t) |};
     interrupt := interrupt t; reason := reason t |}.

Section Tracer.
Context {VM : vm.Ops} {JSON : json.Codec} {HEX : HexRender}.

(** The opening of [NewContractTracer]: [var config contractTracerConfig],
    decoded into only [if cfg != nil]. *)
Definition decode_config (cfg : option RawMessage)
  : contractTracerConfig + error :=
  match cfg with
  | Some raw => json.Unmarshal raw
  | None => inl zero_config
  end.

(** [func NewContractTracer(cfg json.RawMessage) (tracers.Tracer, error)] *)
Definition NewContractTracer (cfg : option RawMessage)
  : contractTracer + error :=
  match decode_config cfg with
  | inr err => inr err
  | inl config =>
      let t := {| Addrs := ∅; config := config;
                  interrupt := 0%N; reason := None |} in
      (* handle invalid opcode case *)
      let op := vm.StringToOp (OpCode config) in
      if Byte.eqb op x00
         && negb (String.eqb (OpCode config) "STOP")
         && negb (String.eqb (OpCode config) "")
      then inl (set_OpCode t "inv")
      else inl t
  end.

(** The two assignments [t.Addrs[addrToHex(to)] = ...] of
    [validateAndStoreOpCode]. *)
Definition observation (t : contractTracer) (input : list byte) : string :=
  if WithByteCode (config t) then bytesToHex input else "".

Definition store (t : contractTracer) (input : list byte) (to : Address)
  : contractTracer :=
  set_Addrs t (<[addrToHex to := observation t input]> (Addrs t)).

(** [func validateAndStoreOpCode(t *contractTracer, input []byte,
    to common.Address)]. The condition is evaluated left to right with
    Go's short-circuit operators; [None] is a panic of the scanner. *)
Definition validateAndStoreOpCode (t : contractTracer) (input : list byte)
  (to : Address) : option contractTracer :=
  let name := OpCode (config t) in
  exit_early ←
    (if String.eqb name "inv" then Some true
     else if negb (String.eqb name "") then
       found ← findOpcodes input (vm.StringToOp name); Some (negb found)
     else Some false);
  if exit_early : bool then Some t else Some (store t input to).

(** The creations that [validateAndStoreOpCode] lets through: the negation
    of its early-exit condition. *)
Definition passes_filter (t : contractTracer) (input : list byte) : Prop :=
  OpCode (config t) <> "inv" /\
  (OpCode (config t) = "" \/
   findOpcodes input (vm.StringToOp (OpCode (config t))) = Some true).

(** [func (t *contractTracer) CaptureStart(env, from, to, create, input,
    gas, value)] *)
Definition CaptureStart (t : contractTracer) (from to : Address)
  (create : bool) (input : list byte) (gas : N) (value : Z)
  : option contractTracer :=
  if create then validateAndStoreOpCode t input to else Some t.

(** [CaptureEnd], [CaptureState], [CaptureFault] and [CaptureExit] have
    empty bodies. *)
Definition CaptureEnd (t : contractTracer) (output : list byte) (gasUsed : N)
  (err : option error) : contractTracer := t.

Definition CaptureState (t : contractTracer) (pc : N) (op : vm.OpCode)
  (gas cost : N) (rData : list byte) (depth : Z) (err : option error)
  : contractTracer := t.

Definition CaptureFault (t : contractTracer) (pc : N) (op : vm.OpCode)
  (gas cost : N) (depth : Z) (err : option error) : contractTracer := t.

Definition CaptureExit (t : contractTracer) (output : list byte) (gasUsed : N)
  (err : option error) : contractTracer := t.

(** [func (t *contractTracer) CaptureEnter(typ, from, to, input, gas,
    value)] *)
Definition CaptureEnter (t : contractTracer) (typ : vm.OpCode)
  (from to : Address) (input : list byte) (gas : N) (value : Z)
  : option contractTracer :=
  (* Skip if tracing was interrupted *)
  if (0 <? interrupt t)%N then Some t
  else if Byte.eqb typ vm.CREATE || Byte.eqb typ vm.CREATE2
  then validateAndStoreOpCode t input to
  else Some t.

(** [func (t *contractTracer) GetResult() (json.RawMessage, error)]: both
    components of the returned pair, [None] being [nil]. *)
Definition GetResult (t : contractTracer)
  : option RawMessage * option error :=
  match json.Marshal (Addrs t) with
  | inr err => (None, Some err)
  | inl res => (Some res, reason t)
  end.

(** [func (t *contractTracer) Stop(err error)] *)
Definition Stop (t : contractTracer) (err : option error) : contractTracer :=
  {| Addrs := Addrs t; config := config t;
     interrupt := 1%N; reason := err |}.

End Tracer.

(** *** Hook invocations as data

    What the executor (and a canceller) may do to a tracer, so that
    statements can quantify over sequences of invocations. *)
Inductive hook : Type :=
| OnCaptureStart (from to : Address) (create : bool) (input : list byte)
    (gas : N) (value : Z)
| OnCaptureEnd (output : list byte) (gasUsed : N) (err : option error)
| OnCaptureState (pc : N) (op : vm.OpCode) (gas cost : N)
    (rData : list byte) (depth : Z) (err : option error)
| OnCaptureFault (pc : N) (op : vm.OpCode) (gas cost : N) (depth : Z)
    (err : option error)
| OnCaptureEnter (typ : vm.OpCode) (from to : Address) (input : list byte)
    (gas : N) (value : Z)
| OnCaptureExit (output : list byte) (gasUsed : N) (err : option error)
| OnStop (err : option error).

Section Driver.
Context {VM : vm.Ops} {JSON : json.Codec} {HEX : HexRender}.

Definition invoke (t : contractTracer) (h : hook) : option contractTracer :=
  match h with
  | OnCaptureStart from to create input gas value =>
      CaptureStart t from to create input gas value
  | OnCaptureEnd output gasUsed err => Some (CaptureEnd t output gasUsed err)
  | OnCaptureState pc op gas cost rData depth err =>
      Some (CaptureState t pc op gas cost rData depth err)
  | OnCaptureFault pc op gas cost depth err =>
      Some (CaptureFault t pc op gas cost depth err)
  | OnCaptureEnter typ from to input gas value =>
      CaptureEnter t typ from to input gas value
  | OnCaptureExit output gasUsed err => Some (CaptureExit t output gasUsed err)
  | OnStop err => Some (Stop t err)
  end.

Fixpoint invoke_all (t : contractTracer) (hs : list hook)
  : option contractTracer :=
  match hs with
  | [] => Some t
  | h :: hs' => t' ← invoke t h; invoke_all t' hs'
  end.

(** A creation as the tracer sees it: the root frame of a deployment, or an
    inner frame entered by [CREATE] or [CREATE2]. *)
Definition creation_event (h : hook) : option (list byte * Address) :=
  match h with
  | OnCaptureStart _ to true input _ _ => Some (input, to)
  | OnCaptureEnter typ _ to input _ _ =>
      if Byte.eqb typ vm.CREATE || Byte.eqb typ vm.CREATE2
      then Some (input, to) else None
  | _ => None
  end.

Definition is_Stop (h : hook) : bool :=
  match h with OnStop _ => true | _ => false end.

End Driver.

(** ** Concrete collaborators

    Used to run the definitions on concrete data. *)

Definition hex_digit (n : N) : string :=
  String.substring (N.to_nat n) 1 "0123456789abcdef".

Definition hex_of_byte (b : byte) : string :=
  hex_digit (Byte.to_N b / 16) +:+ hex_digit (Byte.to_N b mod 16).

Definition hex_of_bytes (bs : list byte) : string :=
  foldr (fun b s => hex_of_byte b +:+ s) "" bs.

Module evm.

(** Modelled from the spec: [package vm] is not among the sources. The
    glossary's push-class instructions are [PUSH1] .. [PUSH32], the codes
    [0x60] .. [0x7f], for which [op - 95] is the operand length. *)
Definition IsPush (op : vm.OpCode) : bool :=
  (Byte.to_N x60 <=? Byte.to_N op)%N && (Byte.to_N op <=? Byte.to_N x7f)%N.

(** Modelled from the spec: the instruction-name table behind
    [vm.StringToOp], with the long-standing instruction names of the
    virtual machine. *)
Definition stringToOp : list (string * vm.OpCode) :=
  [("STOP", x00); ("ADD", x01); ("MUL", x02); ("SUB", x03); ("DIV", x04);
   ("SDIV", x05); ("MOD", x06); ("SMOD", x07); ("ADDMOD", x08);
   ("MULMOD", x09); ("EXP", x0a); ("SIGNEXTEND", x0b); ("LT", x10);
   ("GT", x11); ("SLT", x12); ("SGT", x13); ("EQ", x14); ("ISZERO", x15);
   ("AND", x16); ("OR", x17); ("XOR", x18); ("NOT", x19); ("BYTE", x1a);
   ("SHL", x1b); ("SHR", x1c); ("SAR", x1d); ("ADDRESS", x30);
   ("BALANCE", x31); ("ORIGIN", x32); ("CALLER", x33); ("CALLVALUE", x34);
   ("CALLDATALOAD", x35); ("CALLDATASIZE", x36); ("CALLDATACOPY", x37);
   ("CODESIZE", x38); ("CODECOPY", x39); ("GASPRICE", x3a);
   ("EXTCODESIZE", x3b); ("EXTCODECOPY", x3c); ("RETURNDATASIZE", x3d);
   ("RETURNDATACOPY", x3e); ("EXTCODEHASH", x3f); ("BLOCKHASH", x40);
   ("COINBASE", x41); ("TIMESTAMP", x42); ("NUMBER", x43); ("GASLIMIT", x45);
   ("POP", x50); ("MLOAD", x51); ("MSTORE", x52); ("MSTORE8", x53);
   ("SLOAD", x54); ("SSTORE", x55); ("JUMP", x56); ("JUMPI", x57);
   ("PC", x58); ("MSIZE", x59); ("GAS", x5a); ("JUMPDEST", x5b);
   ("PUSH1", x60); ("PUSH2", x61); ("PUSH3", x62); ("PUSH4", x63);
   ("PUSH5", x64); ("PUSH6", x65); ("PUSH7", x66); ("PUSH8", x67);
   ("PUSH9", x68); ("PUSH10", x69); ("PUSH11", x6a); ("PUSH12", x6b);
   ("PUSH13", x6c); ("PUSH14", x6d); ("PUSH15", x6e); ("PUSH16", x6f);
   ("PUSH17", x70); ("PUSH18", x71); ("PUSH19", x72); ("PUSH20", x73);
   ("PUSH21", x74); ("PUSH22", x75); ("PUSH23", x76); ("PUSH24", x77);
   ("PUSH25", x78); ("PUSH26", x79); ("PUSH27", x7a); ("PUSH28", x7b);
   ("PUSH29", x7c); ("PUSH30", x7d); ("PUSH31", x7e); ("PUSH32", x7f);
   ("DUP1", x80); ("DUP2", x81); ("DUP3", x82); ("DUP4", x83); ("DUP5", x84);
   ("DUP6", x85); ("DUP7", x86); ("DUP8", x87); ("DUP9", x88);
   ("DUP10", x89); ("DUP11", x8a); ("DUP12", x8b); ("DUP13", x8c);
   ("DUP14", x8d); ("DUP15", x8e); ("DUP16", x8f); ("SWAP1", x90);
   ("SWAP2", x91); ("SWAP3", x92); ("SWAP4", x93); ("SWAP5", x94);
   ("SWAP6", x95); ("SWAP7", x96); ("SWAP8", x97); ("SWAP9", x98);
   ("SWAP10", x99); ("SWAP11", x9a); ("SWAP12", x9b); ("SWAP13", x9c);
   ("SWAP14", x9d); ("SWAP15", x9e); ("SWAP16", x9f); ("LOG0", xa0);
   ("LOG1", xa1); ("LOG2", xa2); ("LOG3", xa3); ("LOG4", xa4);
   ("CREATE", xf0); ("CALL", xf1); ("CALLCODE", xf2); ("RETURN", xf3);
   ("DELEGATECALL", xf4); ("CREATE2", xf5); ("STATICCALL", xfa);
   ("REVERT", xfd); ("SELFDESTRUCT", xff)].

(** Modelled from the spec: [vm.StringToOp] is a lookup in a Go map, which
    yields the zero value of [OpCode] for a name that is not a key. *)
Definition StringToOp (str : string) : vm.OpCode :=
  match list_find (fun entry => String.eqb (fst entry) str) stringToOp with
  | Some (_, (_, op)) => op
  | None => x00
  end.

Definition ops : vm.Ops := {|
  vm.IsPush := IsPush;
  vm.StringToOp := StringToOp;
  vm.CREATE := xf0;
  vm.CREATE2 := xf5 |}.

End evm.

(** Modelled from the spec: [addrToHex] and [bytesToHex] are not among the
    sources; the spec has hex-encoded address strings and hex-encoded
    bytecode strings. *)
Definition hex_render : HexRender := {|
  addrToHex a := "0x" +:+ hex_of_bytes a;
  bytesToHex bs := "0x" +:+ hex_of_bytes bs |}.

Module sample.

(** The double-quote character of JSON text. *)
Definition dq : string := String (ascii_of_byte x22) "".

Definition quoted (s : string) : string := dq +:+ s +:+ dq.

Definition member (key value : string) : string := quoted key +:+ ":" +:+ value.

Definition join (sep : string) (items : list string) : string :=
  match items with
  | [] => ""
  | first :: rest => foldl (fun acc s => acc +:+ sep +:+ s) first rest
  end.

Definition object (members : list string) : string :=
  "{" +:+ join "," members +:+ "}".

(** Configuration documents and what they decode to. *)
Definition documents : list (string * contractTracerConfig) :=
  [ (object [], zero_config);
    (object [member "opCode" (quoted "STOP")],
     {| OpCode := "STOP"; WithByteCode := false |});
    (object [member "opCode" (quoted "SELFDESTRUCT");
             member "withByteCode" "true"],
     {| OpCode := "SELFDESTRUCT"; WithByteCode := true |});
    (object [member "opCode" (quoted "CREATE2");
             member "withByteCode" "true"],
     {| OpCode := "CREATE2"; WithByteCode := true |});
    (object [member "opCode" (quoted "PUSH1")],
     {| OpCode := "PUSH1"; WithByteCode := false |});
    (object [member "opCode" (quoted "NOPE")],
     {| OpCode := "NOPE"; WithByteCode := false |}) ].

(** A codec that decodes the documents above and rejects every other text,
    and that renders a mapping as an object of string members. *)
Definition Unmarshal (raw : RawMessage) : contractTracerConfig + error :=
  match list_find (fun d => String.eqb (fst d) (string_of_list_byte raw))
          documents with
  | Some (_, (_, c)) => inl c
  | None => inr "invalid configuration"
  end.

Definition Marshal (m : gmap string string) : RawMessage + error :=
  inl (list_byte_of_string
         (object (map (fun kv => member (fst kv) (quoted (snd kv)))
                      (map_to_list m)))).

Definition codec : json.Codec :=
  {| json.Unmarshal := Unmarshal; json.Marshal := Marshal |}.

End sample.

(** ** Decoding configuration documents

    A model of how [json.Unmarshal] of Go's [encoding/json] decodes a
    document into a [contractTracerConfig], for documents whose strings are
    ASCII and use no escape of the form backslash-u; any other document is outside
    the model and is reported like a syntax error. *)

Module gojson.

#[warnings="-register-all"]
Inductive value : Type :=
| Null
| Bool (b : bool)
| Number (literal : list byte)
| Text (s : string)
| Array (items : list value)
| Object (members : list (string * value)).

Definition is_space (b : byte) : bool :=
  Byte.eqb b x20 || Byte.eqb b x09 || Byte.eqb b x0a || Byte.eqb b x0d.

Definition is_digit (b : byte) : bool :=
  (48 <=? Byte.to_N b)%N && (Byte.to_N b <=? 57)%N.

Fixpoint skip_space (s : list byte) : list byte :=
  match s with
  | b :: r => if is_space b then skip_space r else s
  | [] => []
  end.

Fixpoint strip_prefix (p s : list byte) : option (list byte) :=
  match p, s with
  | [], _ => Some s
  | c :: p', d :: s' => if Byte.eqb c d then strip_prefix p' s' else None
  | _ :: _, [] => None
  end.

Fixpoint take_digits (s : list byte) : list byte * list byte :=
  match s with
  | b :: r =>
      if is_digit b
      then let '(ds, rest) := take_digits r in (b :: ds, rest)
      else ([], s)
  | [] => ([], [])
  end.

(** The character that follows a backslash. *)
Definition unescape (e : byte) : option byte :=
  if Byte.eqb e x22 then Some x22          (* quotation mark *)
  else if Byte.eqb e x5c then Some x5c     (* reverse solidus *)
  else if Byte.eqb e x2f then Some x2f     (* solidus *)
  else if Byte.eqb e x62 then Some x08     (* backspace *)
  else if Byte.eqb e x66 then Some x0c     (* form feed *)
  else if Byte.eqb e x6e then Some x0a     (* line feed *)
  else if Byte.eqb e x72 then Some x0d     (* carriage return *)
  else if Byte.eqb e x74 then Some x09     (* tab *)
  else None.

(** A string, from after its opening quote to its closing one. *)
Fixpoint string_body (s : list byte) : option (string * list byte) :=
  match s with
  | [] => None
  | b :: r =>
      if Byte.eqb b x22 then Some (EmptyString, r)
      else if Byte.eqb b x5c then
        match r with
        | e :: r' =>
            match unescape e, string_body r' with
            | Some c, Some (str, rest) =>
                Some (String (ascii_of_byte c) str, rest)
            | _, _ => None
            end
        | [] => None
        end
      else if (Byte.to_N b <? 32)%N || (127 <? Byte.to_N b)%N then None
      else
        match string_body r with
        | Some (str, rest) => Some (String (ascii_of_byte b) str, rest)
        | None => None
        end
  end.

(** A number: an optional minus, an integer part without a leading zero,
    an optional fraction, an optional exponent. *)
Definition number (s : list byte) : option (list byte * list byte) :=
  let '(sign, s1) :=
    match s with
    | b :: r => if Byte.eqb b x2d then ([x2d], r) else ([], s)
    | [] => ([], s)
    end in
  let '(whole, s2) := take_digits s1 in
  let whole_ok :=
    match whole with
    | [] => false
    | [_] => true
    | d :: _ => negb (Byte.eqb d x30)
    end in
  if negb whole_ok then None else
  let fraction :=
    match s2 with
    | b :: r =>
        if Byte.eqb b x2e then
          let '(ds, s3) := take_digits r in
          match ds with [] => None | _ => Some (b :: ds, s3) end
        else Some ([], s2)
    | [] => Some ([], s2)
    end in
  match fraction with
  | None => None
  | Some (frac, s3) =>
      match s3 with
      | b :: r =>
          if Byte.eqb b x65 || Byte.eqb b x45 then
            let '(esign, r') :=
              match r with
              | c :: r'' =>
                  if Byte.eqb c x2b || Byte.eqb c x2d then ([c], r'')
                  else ([], r)
              | [] => ([], r)
              end in
            let '(ds, s4) := take_digits r' in
            match ds with
            | [] => None
            | _ => Some (sign ++ whole ++ frac ++ b :: esign ++ ds, s4)
            end
          else Some (sign ++ whole ++ frac, s3)
      | [] => Some (sign ++ whole ++ frac, s3)
      end
  end.

Definition keyword (s : list byte) : option (value * list byte) :=
  match strip_prefix [x74; x72; x75; x65] s with          (* true *)
  | Some r => Some (Bool true, r)
  | None =>
  match strip_prefix [x66; x61; x6c; x73; x65] s with     (* false *)
  | Some r => Some (Bool false, r)
  | None =>
  match strip_prefix [x6e; x75; x6c; x6c] s with          (* null *)
  | Some r => Some (Null, r)
  | None =>
  match number s with
  | Some (literal, r) => Some (Number literal, r)
  | None => None
  end end end end.

(** One value and what follows it; [fuel] bounds the nesting and the
    number of items. *)
Fixpoint parse_value (fuel : nat) (s : list byte)
  : option (value * list byte) :=
  match fuel with
  | 0 => None
  | S fuel' =>
      match skip_space s with
      | [] => None
      | b :: r =>
          if Byte.eqb b x7b then                          (* { *)
            match skip_space r with
            | c :: r' =>
                if Byte.eqb c x7d then Some (Object [], r')
                else parse_members fuel' (c :: r') []
            | [] => None
            end
          else if Byte.eqb b x5b then                     (* [ *)
            match skip_space r with
            | c :: r' =>
                if Byte.eqb c x5d then Some (Array [], r')
                else parse_items fuel' (c :: r') []
            | [] => None
            end
          else if Byte.eqb b x22 then
            match string_body r with
            | Some (str, rest) => Some (Text str, rest)
            | None => None
            end
          else keyword (b :: r)
      end
  end
with parse_items (fuel : nat) (s : list byte) (acc : list value)
  : option (value * list byte) :=
  match fuel with
  | 0 => None
  | S fuel' =>
      match parse_value fuel' s with
      | None => None
      | Some (v, r) =>
          match skip_space r with
          | c :: r' =>
              if Byte.eqb c x2c then parse_items fuel' r' (v :: acc)
              else if Byte.eqb c x5d
              then Some (Array (rev (v :: acc)), r')
              else None
          | [] => None
          end
      end
  end
with parse_members (fuel : nat) (s : list byte)
  (acc : list (string * value)) : option (value * list byte) :=
  match fuel with
  | 0 => None
  | S fuel' =>
      match skip_space s with
      | q :: r =>
          if negb (Byte.eqb q x22) then None else
          match string_body r with
          | None => None
          | Some (key, r1) =>
              match skip_space r1 with
              | c :: r2 =>
                  if negb (Byte.eqb c x3a) then None else
                  match parse_value fuel' r2 with
                  | None => None
                  | Some (v, r3) =>
                      match skip_space r3 with
                      | d :: r4 =>
                          if Byte.eqb d x2c
                          then parse_members fuel' r4 ((key, v) :: acc)
                          else if Byte.eqb d x7d
                          then Some (Object (rev ((key, v) :: acc)), r4)
                          else None
                      | [] => None
                      end
                  end
              | [] => None
              end
          end
      | [] => None
      end
  end.

(** A whole document: one value, with nothing but white space around. *)
Definition parse (raw : list byte) : option value :=
  match parse_value (2 * length raw + 2) raw with
  | Some (v, rest) =>
      match skip_space rest with
      | [] => Some v
      | _ :: _ => None
      end
  | None => None
  end.

(** [json.Valid] *)
Definition Valid (raw : list byte) : bool :=
  match parse raw with Some _ => true | None => false end.

Definition lower (a : ascii) : ascii :=
  let n := nat_of_ascii a in
  if (65 <=? n)%nat && (n <=? 90)%nat then ascii_of_nat (n + 32) else a.

Fixpoint fold_case (s : string) : string :=
  match s with
  | EmptyString => EmptyString
  | String a rest => String (lower a) (fold_case rest)
  end.

(** A key selects a field when it is the field's name up to the case of
    its letters. *)
Definition names (key field : string) : bool :=
  String.eqb (fold_case key) (fold_case field).

Definition kind (v : value) : string :=
  match v with
  | Null => "null"
  | Bool _ => "bool"
  | Number _ => "number"
  | Text _ => "string"
  | Array _ => "array"
  | Object _ => "object"
  end.

Definition mismatch (v : value) (field type : string) : error :=
  "json: cannot unmarshal " +:+ kind v
  +:+ " into Go struct field contractTracerConfig." +:+ field
  +:+ " of type " +:+ type.

Definition first_error (seen : option error) (e : error) : option error :=
  match seen with Some _ => seen | None => Some e end.

(** The members of an object, in order: a member that names a field sets
    it, [null] has no effect, a value of another kind is an error and
    decoding goes on; members that name no field are skipped. The first
    error is the one reported. *)
Fixpoint assign (members : list (string * value)) (c : contractTracerConfig)
  (seen : option error) : contractTracerConfig * option error :=
  match members with
  | [] => (c, seen)
  | (key, v) :: rest =>
      if names key "opCode" then
        match v with
        | Text s =>
            assign rest {| OpCode := s; WithByteCode := WithByteCode c |} seen
        | Null => assign rest c seen
        | _ => assign rest c (first_error seen (mismatch v "opCode" "string"))
        end
      else if names key "withByteCode" then
        match v with
        | Bool b => assign rest {| OpCode := OpCode c; WithByteCode := b |} seen
        | Null => assign rest c seen
        | _ =>
            assign rest c (first_error seen (mismatch v "withByteCode" "bool"))
        end
      else assign rest c seen
  end.

(** [json.Unmarshal(cfg, &config)] on a zero-valued [config]. The texts of
    syntax errors are not modelled: one text stands for them all. *)
Definition Unmarshal (raw : RawMessage) : contractTracerConfig + error :=
  match parse raw with
  | None => inr "json: syntax error"
  | Some Null => inl zero_config
  | Some (Object members) =>
      match assign members zero_config None with
      | (c, None) => inl c
      | (_, Some e) => inr e
      end
  | Some v =>
      inr ("json: cannot unmarshal " +:+ kind v
           +:+ " into Go value of type native.contractTracerConfig")
  end.

Definition codec : json.Codec :=
  {| json.Unmarshal := Unmarshal; json.Marshal := sample.Marshal |}.

End gojson.

(** ** The gas-estimation engine *)

Module backends.

(** Modelled from the spec: the call description of a gas-estimation
    request, [{from, to?, gas?, gasPrice?, value?, data?}]; the fields are
    those of the messages built in [TestSimulatedBackend_EstimateGas]. *)
Record CallMsg : Type := {
  From : Address;
  To : option Address;
  Gas : N;
  GasPrice : Z;
  Value : option Z;
  Data : list byte
}.

(** Modelled from the spec: the structured failure of an execution outcome
    (section 6: out-of-gas, revert with its reason when decodable, invalid
    instruction, or a generic execution failure). The last two carry the
    executor's own description of the cause, which the engine surfaces
    verbatim (step 2). *)
Inductive fault : Type :=
| OutOfGas
| Revert (decoded : option string)
| InvalidInstruction (text : string)
| ExecutionFailure (text : string).

(** Modelled from the spec: a failure is attributable to insufficient gas
    when it is the out-of-gas one. *)
Definition attributable_to_gas (f : fault) : bool :=
  match f with OutOfGas => true | _ => false end.

(** Modelled from the spec: a gas value as it is substituted into a
    message, in decimal digits without sign or padding. *)
Definition decimal (n : N) : string :=
  DecimalString.NilEmpty.string_of_uint (N.to_uint n).

(** Modelled from the spec: the message texts of the error classification,
    spelled as section 6 and the expectations of
    [TestSimulatedBackend_EstimateGas] have them. *)
Definition cause (f : fault) : string :=
  match f with
  | OutOfGas => "out of gas"
  | Revert _ => "execution reverted"
  | InvalidInstruction text => text
  | ExecutionFailure text => text
  end.

(** Modelled from the spec: the text for a failure that more gas cannot
    fix, the cause in parentheses and then, for a revert whose reason is
    decodable, that reason in parentheses. *)
Definition always_failing (f : fault) : string :=
  "always failing transaction (" +:+ cause f +:+ ")" +:+
  match f with
  | Revert (Some why) => " (" +:+ why +:+ ")"
  | _ => ""
  end.

(** Modelled from the spec: the text for a call that needs more gas than
    the upper bound allows, with that bound substituted. *)
Definition exceeds_allowance (cap : N) : string :=
  "gas required exceeds allowance (" +:+ decimal cap +:+ ")".

(** Modelled from the spec: the classification of a failed probe at the
    upper bound [cap] (step 2). *)
Definition classify (f : fault) (cap : N) : string :=
  if attributable_to_gas f then exceeds_allowance cap else always_failing f.

(** Modelled from the spec: the call shape of step 5, a target together
    with zero-length input. *)
Definition plain_transfer (msg : CallMsg) : bool :=
  match To msg with
  | Some _ => (length (Data msg) =? 0)%nat
  | None => false
  end.

(** Modelled from the spec: step 1, the upper bound is the caller-supplied
    cap if present and positive, else the execution ceiling. *)
Definition upper_bound (ceiling : N) (msg : CallMsg) : N :=
  if (0 <? Gas msg)%N then Gas msg else ceiling.

(** Modelled from the spec: the protocol-defined intrinsic floor of a call
    is the least gas that an execution of it can be given; with less, the
    execution fails for want of gas before any code runs. [run msg gas] is
    the executor collaborator on the current state, [None] being success. *)
Definition execute (intrinsic_floor : CallMsg -> positive)
  (run : CallMsg -> N -> option fault) (msg : CallMsg) (gas : N)
  : option fault :=
  if (gas <? N.pos (intrinsic_floor msg))%N then Some OutOfGas
  else run msg gas.

(** Modelled from the spec: steps 3 and 4 of section 4.5 on the search state
    of section 3. [failing] is the lower bound, a gas value known to be
    insufficient, and [passing] the upper bound, a gas value known to be
    sufficient; the candidate lies strictly between the two. *)
Equations? bisect (probe : N -> option fault) (failing passing : N)
  : N + string by wf (N.to_nat (passing - failing)) lt :=
bisect probe failing passing with decide (passing - failing <= 1)%N := {
  | left _ => inl passing
  | right Hgap with probe ((failing + passing) / 2)%N := {
    | None => bisect probe failing ((failing + passing) / 2)%N
    | Some f =>
        if attributable_to_gas f
        then bisect probe ((failing + passing) / 2)%N passing
        else inr (always_failing f) } }.
Proof. all: zify; Z.div_mod_to_equations; lia. Qed.

(** Modelled from the spec: the engine of section 4.5. Bounds first
    (step 1): the search ranges over the gas values from the intrinsic
    floor to the upper bound, both included, so that the lower bound of its
    state is the value just below the floor, which is known to be
    insufficient (invariant 3). Then the feasibility probe at the upper
    bound (step 2), then the shortcut for plain transfers (step 5), which
    skips the search (steps 3 and 4). *)
Definition EstimateGas (intrinsic_floor : CallMsg -> positive)
  (run : CallMsg -> N -> option fault) (ceiling : N) (msg : CallMsg)
  : N + string :=
  let probe := execute intrinsic_floor run msg in
  let floor := N.pos (intrinsic_floor msg) in
  let upper := upper_bound ceiling msg in
  match probe upper with
  | Some f => inr (classify f upper)
  | None =>
      if plain_transfer msg && bool_decide (probe floor = None)
      then inl floor
      else bisect probe (Pos.pred_N (intrinsic_floor msg)) upper
  end.

End backends.

(** ** Concrete data

    The inputs at which the definitions are run below. *)

Module scenario.

Definition deployer : Address := replicate 20 x11.
Definition created : Address := replicate 20 xc0.
Definition contract : Address := replicate 20 xc1.

(** A cancellation reason, as a watchdog would pass it to [Stop]. *)
Definition timeout : option error := Some "execution timeout"%string.

(** [PUSH1 0x00], then [STOP]. *)
Definition push_then_stop : list byte := [x60; x00; x00].

(** [PUSH1 0xff]: the byte [0xff] occurs, as immediate data only. *)
Definition push_ff : list byte := [x60; xff].

(** [PUSH2] with a single byte left to read. *)
Definition truncated_push : list byte := [x00; x61; xff].

(** [PUSH1 0x00], then [SELFDESTRUCT]. *)
Definition selfdestructing : list byte := [x60; x00; xff].

Definition document (text : string) : option RawMessage :=
  Some (list_byte_of_string text).

Definition stop_document : option RawMessage :=
  document (sample.object [sample.member "opCode" (sample.quoted "STOP")]).

Definition nope_document : option RawMessage :=
  document (sample.object [sample.member "opCode" (sample.quoted "NOPE")]).

Definition selfdestruct_document : option RawMessage :=
  document (sample.object
              [sample.member "opCode" (sample.quoted "SELFDESTRUCT");
               sample.member "withByteCode" "true"]).

(** The tracer that [NewContractTracer] builds from an absent
    configuration. *)
Definition fresh : contractTracer :=
  {| Addrs := ∅; config := zero_config; interrupt := 0%N; reason := None |}.

Definition selfdestruct_tracer : contractTracer :=
  {| Addrs := ∅;
     config := {| OpCode := "SELFDESTRUCT"; WithByteCode := true |};
     interrupt := 0%N; reason := None |}.

Definition deployment (input : list byte) : hook :=
  OnCaptureStart deployer created true input 100000%N 0%Z.

Definition inner_create (input : list byte) : hook :=
  OnCaptureEnter xf0 deployer created input 100000%N 0%Z.

(** The messages of [TestSimulatedBackend_EstimateGas] that the
    development runs, and executors behaving as the test's contract does on
    them. *)
Definition call (gas : N) (data : list byte) : backends.CallMsg :=
  {| backends.From := deployer; backends.To := Some contract;
     backends.Gas := gas; backends.GasPrice := 0%Z;
     backends.Value := None; backends.Data := data |}.

Definition transfer : backends.CallMsg :=
  {| backends.From := deployer; backends.To := Some deployer;
     backends.Gas := 0%N; backends.GasPrice := 0%Z;
     backends.Value := Some 1%Z; backends.Data := [] |}.

Definition block_gas_limit : N := 10000000.

(** Succeeds from [need] on, and runs out of gas below. *)
Definition needs (need : N) : backends.CallMsg -> N -> option backends.fault :=
  fun _ gas => if (gas <? need)%N then Some backends.OutOfGas else None.

(** Fails in the same way whatever the gas. *)
Definition always (f : backends.fault)
  : backends.CallMsg -> N -> option backends.fault :=
  fun _ _ => Some f.

Definition floor (base : positive) : backends.CallMsg -> positive :=
  fun _ => base.

End scenario.

(** ** Runs of hook invocations *)

Section Runs.
Context {VM : vm.Ops} {JSON : json.Codec} {HEX : HexRender}.

(** The condition under which [validateAndStoreOpCode] reaches its
    assignments: the negation of its early-exit condition, as a boolean. *)
Definition lets_through (t : contractTracer) (input : list byte) : bool :=
  negb (String.eqb (OpCode (config t)) "inv")
  && (String.eqb (OpCode (config t)) ""
      || bool_decide
           (findOpcodes input (vm.StringToOp (OpCode (config t)))
            = Some true)).

(** The invocations whose hook has a body that may write to the tracer:
    the creations and the cancellations. *)
Definition acts (h : hook) : bool :=
  match creation_event h with
  | Some _ => true
  | None => is_Stop h
  end.

(** A [CaptureStart] with [create] set. *)
Definition creating_start (h : hook) : bool :=
  match h with
  | OnCaptureStart _ _ true _ _ _ => true
  | _ => false
  end.

(** The argument of the last [Stop] of a run, or [init] if there is none. *)
Definition final_reason (init : option error) (hs : list hook)
  : option error :=
  fold_left (fun r h => match h with OnStop err => err | _ => r end) hs init.

(** [1] if the run has a [Stop], else [init]. *)
Definition final_flag (init : N) (hs : list hook) : N :=
  fold_left (fun f h => match h with OnStop _ => 1%N | _ => f end) hs init.

End Runs.

Module cases.

Definition push1_document : option RawMessage :=
  scenario.document
    (sample.object [sample.member "opCode" (sample.quoted "PUSH1")]).

(** An ordinary call frame entered inside the traced execution. *)
Definition inner_call (input : list byte) : hook :=
  OnCaptureEnter xf1 scenario.deployer scenario.contract input 100000%N 0%Z.

Definition creation_at (to : Address) (input : list byte) : hook :=
  OnCaptureEnter xf5 scenario.deployer to input 100000%N 0%Z.

Definition frame_exit : hook := OnCaptureExit [] 21000%N None.

End cases.

(** * Properties *)

(** ** The scanner *)

Section ScannerFacts.
Context {VM : vm.Ops}.

(** *** Unfolding the loop *)

Lemma findOpcodes_from_step bytecode opcode i :
  findOpcodes_from bytecode opcode i =
  match scan_step bytecode opcode i with
  | Return b => Some b
  | Advance i' => findOpcodes_from bytecode opcode i'
  | IndexPanic => None
  end.
Proof.
  simp findOpcodes_from.
  generalize (inspect (scan_step bytecode opcode i)).
  intros [r Hr]. destruct r; cbn; rewrite Hr; reflexivity.
Qed.

Lemma scan_step_in_bounds bytecode opcode i :
  scan_step bytecode opcode i <> IndexPanic.
Proof.
  unfold scan_step.
  destruct (Nat.ltb_spec i (length bytecode)) as [Hlt|Hge]; [|discriminate].
  destruct (lookup_lt_is_Some_2 bytecode i Hlt) as [op ->].
  destruct (vm.IsPush op); [discriminate|].
  destruct (Byte.eqb op opcode); discriminate.
Qed.

(** Induction on the number of bytes that remain after the cursor. *)
Lemma cursor_ind (bytecode : list byte) (P : nat -> Prop) :
  (forall i, (forall i', i < i' -> i < length bytecode -> P i') -> P i) ->
  forall i, P i.
Proof.
  intros Hstep i.
  remember (length bytecode - i) as n eqn:Hn.
  revert i Hn. induction n as [n IH] using lt_wf_ind. intros i ->.
  apply Hstep. intros i' Hlt Hin.
  apply (IH (length bytecode - i')); [lia | reflexivity].
Qed.

Lemma findOpcodes_from_total bytecode opcode i :
  exists b, findOpcodes_from bytecode opcode i = Some b.
Proof.
  induction i as [i IH] using (cursor_ind bytecode).
  rewrite findOpcodes_from_step.
  destruct (scan_step bytecode opcode i) as [b|i'|] eqn:Hs.
  - eauto.
  - apply scan_step_advance in Hs as [? ?]. auto.
  - exfalso. exact (scan_step_in_bounds _ _ _ Hs).
Qed.

Lemma findOpcodes_from_past_end bytecode opcode i :
  length bytecode <= i -> findOpcodes_from bytecode opcode i = Some false.
Proof.
  intros Hge. rewrite findOpcodes_from_step. unfold scan_step.
  destruct (Nat.ltb_spec i (length bytecode)); [lia | reflexivity].
Qed.

Lemma next_instr_gt i op : i < next_instr i op.
Proof. unfold next_instr. destruct (vm.IsPush op); lia. Qed.

(** No instruction starts strictly inside another one. *)
Lemma instr_at_chain bytecode n :
  forall i j op,
    instr_at bytecode i -> instr_at bytecode j -> i < j <= n ->
    bytecode !! i = Some op -> next_instr i op <= j.
Proof.
  induction n as [|n IH]; intros i j op Hi Hj Hij Hop; [lia|].
  destruct (decide (j <= n)) as [Hle|Hgt]; [eapply IH; eauto; lia|].
  destruct Hj as [|m opm Hm Hopm]; [lia|].
  pose proof (next_instr_gt m opm) as Hmgt.
  destruct (lt_eq_lt_dec i m) as [[Hlt|Heq]|Hlt].
  - pose proof (IH i m op Hi Hm ltac:(lia) Hop). lia.
  - subst m. rewrite Hop in Hopm. injection Hopm as ->. lia.
  - pose proof (IH m i opm Hm Hi ltac:(lia) Hopm). lia.
Qed.

Lemma push_data_not_instr bytecode j :
  push_data_at bytecode j -> ~ instr_at bytecode j.
Proof.
  intros (i & op & Hi & Hop & Hpush & Hrange) Hj.
  pose proof (instr_at_chain bytecode j i j op Hi Hj ltac:(lia) Hop) as Hn.
  unfold next_instr in Hn. rewrite Hpush in Hn. lia.
Qed.

(** The loop invariant: started on an instruction boundary, the scan
    answers [true] exactly when the target is not push-class and heads an
    instruction at or after the cursor. *)
Lemma findOpcodes_from_spec bytecode opcode i :
  instr_at bytecode i ->
  findOpcodes_from bytecode opcode i = Some true <->
  vm.IsPush opcode = false /\ exists j, i <= j /\ genuine_at bytecode opcode j.
Proof.
  induction i as [i IH] using (cursor_ind bytecode). intros Hi.
  rewrite findOpcodes_from_step. unfold scan_step.
  destruct (Nat.ltb_spec i (length bytecode)) as [Hlt|Hge].
  2:{ split; [discriminate|]. intros (_ & j & Hij & _ & Hj).
      apply lookup_lt_Some in Hj. lia. }
  destruct (lookup_lt_is_Some_2 bytecode i Hlt) as [op Hop]. rewrite Hop.
  pose proof (instr_at_next _ _ _ Hi Hop) as Hnext.
  pose proof (next_instr_gt i op) as Hgt.
  assert (Hshift : op <> opcode \/ vm.IsPush op = true ->
    (vm.IsPush opcode = false /\
       exists j, next_instr i op <= j /\ genuine_at bytecode opcode j) <->
    (vm.IsPush opcode = false /\
       exists j, i <= j /\ genuine_at bytecode opcode j)).
  { intros Hne. split; intros (Hnp & j & Hij & Hj); (split; [exact Hnp|]);
      exists j; (split; [|exact Hj]); [lia|].
    destruct (decide (i = j)) as [->|Hneq].
    - destruct Hj as [_ Hj]. rewrite Hop in Hj. injection Hj as ->.
      destruct Hne; congruence.
    - destruct Hj as [Hj _].
      exact (instr_at_chain bytecode j i j op Hi Hj ltac:(lia) Hop). }
  unfold next_instr in *.
  destruct (vm.IsPush op) eqn:Hpush.
  - rewrite (IH _ Hgt Hlt Hnext). apply Hshift. auto.
  - destruct (Byte.eqb op opcode) eqn:Heq.
    + apply Byte.byte_dec_bl in Heq. subst op.
      split; [|reflexivity]. intros _. split; [exact Hpush|].
      exists i. split; [lia|]. split; assumption.
    + apply Byte.eqb_false in Heq.
      rewrite (IH _ Hgt Hlt Hnext). apply Hshift. auto.
Qed.

Lemma findOpcodes_from_false bytecode opcode i :
  instr_at bytecode i ->
  findOpcodes_from bytecode opcode i = Some false <->
  ~ (vm.IsPush opcode = false /\
     exists j, i <= j /\ genuine_at bytecode opcode j).
Proof.
  intros Hi. rewrite <- (findOpcodes_from_spec bytecode opcode i Hi).
  destruct (findOpcodes_from_total bytecode opcode i) as [[|] ->];
    split; intros Hf; congruence.
Qed.

Lemma findOpcodes_true_iff (bytecode : list byte) (opcode : vm.OpCode) :
  findOpcodes bytecode opcode = Some true <->
  vm.IsPush opcode = false /\ exists j, genuine_at bytecode opcode j.
Proof.
  unfold findOpcodes.
  rewrite (findOpcodes_from_spec bytecode opcode 0 (instr_at_start bytecode)).
  split; intros (Hnp & j & Hj); (split; [exact Hnp|]).
  - destruct Hj as [_ Hj]. eauto.
  - exists j. split; [lia | exact Hj].
Qed.

(** C2 (as amended): a target whose every occurrence lies in the immediate
    data of a push-class instruction is not found; a target that is not
    itself push-class and heads an instruction at least once is found; and
    these are the only ways for the scan to answer [true]. *)
Theorem findOpcodes_genuine_occurrence (bytecode : list byte)
  (opcode : vm.OpCode) :
  ((forall j, bytecode !! j = Some opcode -> push_data_at bytecode j) ->
   findOpcodes bytecode opcode = Some false) /\
  (vm.IsPush opcode = false ->
   (exists j, genuine_at bytecode opcode j) ->
   findOpcodes bytecode opcode = Some true) /\
  (findOpcodes bytecode opcode = Some true <->
   vm.IsPush opcode = false /\ exists j, genuine_at bytecode opcode j).
Proof.
  split; [|split].
  - intros Hdata.
    apply (findOpcodes_from_false bytecode opcode 0 (instr_at_start bytecode)).
    intros (_ & j & _ & Hj & Hop).
    exact (push_data_not_instr bytecode j (Hdata j Hop) Hj).
  - intros Hnp Hex. apply findOpcodes_true_iff. auto.
  - apply findOpcodes_true_iff.
Qed.

(** C5: the scan returns a value on every input without faulting; a turn of
    the loop never indexes outside the sequence, and whenever it goes round
    again the cursor was inside the sequence and has moved forward by at
    least one byte; a push-class instruction whose operand runs up to or
    past the end moves the cursor past the end, where the scan stops with
    [false]. *)
Theorem findOpcodes_terminates_in_bounds (bytecode : list byte)
  (opcode : vm.OpCode) :
  (exists b, findOpcodes bytecode opcode = Some b) /\
  (forall i, scan_step bytecode opcode i <> IndexPanic) /\
  (forall i i', scan_step bytecode opcode i = Advance i' ->
                i < length bytecode /\ i + 1 <= i') /\
  (forall i op,
     bytecode !! i = Some op -> vm.IsPush op = true ->
     length bytecode <= i + push_operands op ->
     scan_step bytecode opcode i = Advance (i + push_operands op + 1) /\
     scan_step bytecode opcode (i + push_operands op + 1) = Return false /\
     findOpcodes_from bytecode opcode i = Some false).
Proof.
  split; [apply findOpcodes_from_total|].
  split; [intros i; apply scan_step_in_bounds|].
  split.
  - intros i i' Hs. apply scan_step_advance in Hs. lia.
  - intros i op Hop Hpush Hpast.
    assert (Hstep : scan_step bytecode opcode i
                    = Advance (i + push_operands op + 1)).
    { unfold scan_step. apply lookup_lt_Some in Hop as Hlt.
      destruct (Nat.ltb_spec i (length bytecode)); [|lia].
      rewrite Hop, Hpush. reflexivity. }
    split; [exact Hstep|]. split.
    + unfold scan_step.
      destruct (Nat.ltb_spec (i + push_operands op + 1) (length bytecode));
        [lia | reflexivity].
    + rewrite findOpcodes_from_step, Hstep.
      apply findOpcodes_from_past_end. lia.
Qed.

End ScannerFacts.

(** ** The tracer *)

Section TracerFacts.
Context {VM : vm.Ops} {JSON : json.Codec} {HEX : HexRender}.

(** *** The filter of [validateAndStoreOpCode], case by case *)

Lemma validateAndStoreOpCode_inv t input to :
  OpCode (config t) = "inv" -> validateAndStoreOpCode t input to = Some t.
Proof. intros Hinv. unfold validateAndStoreOpCode. rewrite Hinv. reflexivity. Qed.

Lemma validateAndStoreOpCode_empty t input to :
  OpCode (config t) = "" ->
  validateAndStoreOpCode t input to = Some (store t input to).
Proof. intros He. unfold validateAndStoreOpCode. rewrite He. reflexivity. Qed.

Lemma validateAndStoreOpCode_scan t input to found :
  OpCode (config t) <> "inv" -> OpCode (config t) <> "" ->
  findOpcodes input (vm.StringToOp (OpCode (config t))) = Some found ->
  validateAndStoreOpCode t input to
  = Some (if found then store t input to else t).
Proof.
  intros Hinv%String.eqb_neq Hne%String.eqb_neq Hfind.
  unfold validateAndStoreOpCode. rewrite Hinv, Hne. cbn.
  rewrite Hfind. destruct found; reflexivity.
Qed.

Lemma validateAndStoreOpCode_passes t input to :
  passes_filter t input ->
  validateAndStoreOpCode t input to = Some (store t input to).
Proof.
  intros [Hinv [He|Hfind]].
  - apply validateAndStoreOpCode_empty, He.
  - destruct (decide (OpCode (config t) = "")) as [He|Hne].
    + apply validateAndStoreOpCode_empty, He.
    + apply (validateAndStoreOpCode_scan t input to true Hinv Hne Hfind).
Qed.

Lemma validateAndStoreOpCode_config t input to t' :
  validateAndStoreOpCode t input to = Some t' ->
  config t' = config t /\ interrupt t' = interrupt t /\ reason t' = reason t.
Proof.
  unfold validateAndStoreOpCode.
  destruct (String.eqb (OpCode (config t)) "inv"); cbn.
  { intros [= <-]. auto. }
  destruct (String.eqb (OpCode (config t)) ""); cbn.
  { intros [= <-]. auto. }
  destruct (findOpcodes input _) as [[|]|]; cbn; intros [= <-]; auto.
Qed.

(** *** What a hook invocation amounts to *)

Lemma invoke_creation_event t h input to :
  creation_event h = Some (input, to) ->
  invoke t h =
  match h with
  | OnCaptureEnter _ _ _ _ _ _ =>
      if (0 <? interrupt t)%N then Some t
      else validateAndStoreOpCode t input to
  | _ => validateAndStoreOpCode t input to
  end.
Proof.
  destruct h; cbn; try discriminate.
  - destruct create; [|discriminate]. intros [= <- <-]. reflexivity.
  - unfold CaptureEnter.
    destruct (Byte.eqb typ vm.CREATE || Byte.eqb typ vm.CREATE2);
      [|discriminate].
    intros [= <- <-]. reflexivity.
Qed.

Lemma invoke_running t h input to :
  interrupt t = 0%N -> creation_event h = Some (input, to) ->
  invoke t h = validateAndStoreOpCode t input to.
Proof.
  intros Hrun Hev. rewrite (invoke_creation_event t h input to Hev).
  rewrite Hrun. destruct h; reflexivity.
Qed.

Lemma invoke_config t h t' :
  invoke t h = Some t' -> config t' = config t.
Proof.
  destruct h; cbn; try (intros [= <-]; reflexivity).
  - unfold CaptureStart. destruct create; [|intros [= <-]; reflexivity].
    intros Hv. apply validateAndStoreOpCode_config in Hv. tauto.
  - unfold CaptureEnter. destruct (0 <? interrupt t)%N;
      [intros [= <-]; reflexivity|].
    destruct (_ || _); [|intros [= <-]; reflexivity].
    intros Hv. apply validateAndStoreOpCode_config in Hv. tauto.
Qed.

(** A tracer whose filter is the sentinel is inert under every sequence of
    invocations. *)
Lemma invoke_all_inv t hs :
  OpCode (config t) = "inv" ->
  exists t', invoke_all t hs = Some t' /\ Addrs t' = Addrs t.
Proof.
  revert t. induction hs as [|h hs IH]; intros t Hinv; cbn; [eauto|].
  assert (Hone : exists t1, invoke t h = Some t1 /\ Addrs t1 = Addrs t).
  { destruct h; cbn; eauto.
    - unfold CaptureStart. destruct create; eauto.
      rewrite validateAndStoreOpCode_inv by exact Hinv. eauto.
    - unfold CaptureEnter. destruct (0 <? interrupt t)%N; eauto.
      destruct (_ || _); eauto.
      rewrite validateAndStoreOpCode_inv by exact Hinv. eauto. }
  destruct Hone as (t1 & Hinv1 & Haddrs). rewrite Hinv1. cbn.
  destruct (IH t1) as (t' & Hrun & Hsame).
  { rewrite (invoke_config _ _ _ Hinv1). exact Hinv. }
  exists t'. split; [exact Hrun | congruence].
Qed.

(** Once interrupted, every hook but [CaptureStart] leaves the mapping
    alone. *)
Lemma invoke_interrupted t h :
  interrupt t <> 0%N ->
  (forall from to input gas value,
     h <> OnCaptureStart from to true input gas value) ->
  exists t', invoke t h = Some t' /\ Addrs t' = Addrs t /\
             interrupt t' <> 0%N.
Proof.
  intros Hint Hnot. destruct h; cbn; eauto.
  - unfold CaptureStart. destruct create; eauto.
    exfalso. eapply Hnot. reflexivity.
  - unfold CaptureEnter.
    destruct (N.ltb_spec 0 (interrupt t)); [eauto | lia].
Qed.

(** [CaptureStart] does the same before and after [Stop]. *)
Lemma CaptureStart_ignores_interrupt t err from to create input gas value :
  Addrs <$> CaptureStart (Stop t err) from to create input gas value
  = Addrs <$> CaptureStart t from to create input gas value.
Proof.
  unfold CaptureStart. destruct create; [|reflexivity].
  unfold validateAndStoreOpCode. cbn.
  destruct (String.eqb (OpCode (config t)) "inv"); [reflexivity|].
  destruct (String.eqb (OpCode (config t)) ""); cbn; [reflexivity|].
  destruct (findOpcodes input _) as [[|]|]; reflexivity.
Qed.

Lemma store_lookup t input to :
  Addrs (store t input to) !! addrToHex to = Some (observation t input).
Proof. cbn. apply lookup_insert_eq. Qed.

Lemma invoke_all_reason t hs t' :
  Forall (fun h => is_Stop h = false) hs ->
  invoke_all t hs = Some t' -> reason t' = reason t.
Proof.
  intros Hns. revert t. induction Hns as [|h hs Hh _ IH]; intros t; cbn.
  { intros [= <-]. reflexivity. }
  destruct (invoke t h) as [t1|] eqn:Hone; cbn; [|discriminate].
  intros Hrest. rewrite (IH _ Hrest).
  destruct h; cbn in Hone, Hh; try discriminate;
    try (injection Hone as <-; reflexivity).
  - unfold CaptureStart in Hone. destruct create.
    + apply validateAndStoreOpCode_config in Hone. tauto.
    + injection Hone as <-. reflexivity.
  - unfold CaptureEnter in Hone.
    destruct (0 <? interrupt t)%N; [injection Hone as <-; reflexivity|].
    destruct (_ || _); [|injection Hone as <-; reflexivity].
    apply validateAndStoreOpCode_config in Hone. tauto.
Qed.

(** C3 (as amended): for a creation that reaches a tracer which has not
    been interrupted, the sentinel filter records nothing, the empty filter
    records unconditionally, and any other filter records exactly when the
    scanner finds the configured opcode in the input; a [CaptureEnter] that
    reaches a tracer which has been interrupted records nothing, whatever
    the filter and the frame. *)
Theorem creation_event_filter (t : contractTracer) (h : hook)
  (input : list byte) (to : Address) :
  creation_event h = Some (input, to) ->
  (interrupt t = 0%N ->
   (OpCode (config t) = "inv" -> invoke t h = Some t) /\
   (OpCode (config t) = "" ->
    invoke t h = Some (store t input to) /\
    Addrs (store t input to) !! addrToHex to = Some (observation t input)) /\
   (OpCode (config t) <> "inv" -> OpCode (config t) <> "" ->
    exists found,
      findOpcodes input (vm.StringToOp (OpCode (config t))) = Some found /\
      invoke t h = Some (if found then store t input to else t))) /\
  (interrupt t <> 0%N ->
   forall typ from to' input' gas value,
     invoke t (OnCaptureEnter typ from to' input' gas value) = Some t).
Proof.
  intros Hev. split.
  - intros Hrun. rewrite (invoke_running t h input to Hrun Hev).
    split; [apply validateAndStoreOpCode_inv|]. split.
    + intros He. split; [apply validateAndStoreOpCode_empty, He|].
      apply store_lookup.
    + intros Hinv Hne.
      destruct (findOpcodes_from_total input
                  (vm.StringToOp (OpCode (config t))) 0) as [found Hfound].
      exists found. split; [exact Hfound|].
      apply validateAndStoreOpCode_scan; assumption.
  - intros Hset typ from to' input' gas value. cbn. unfold CaptureEnter.
    destruct (N.ltb_spec 0 (interrupt t)); [reflexivity | lia].
Qed.

(** C4: with no recorded reason [GetResult] returns the serialized mapping
    and no error; with a recorded reason its error component is never nil,
    and is that reason whenever the mapping serializes; the reason given to
    [Stop] stays recorded across all later hook invocations. *)
Theorem GetResult_propagates_reason (t : contractTracer) :
  (reason t = None ->
   forall res, json.Marshal (Addrs t) = inl res ->
               GetResult t = (Some res, None)) /\
  (forall e, reason t = Some e ->
     (exists e', (GetResult t).2 = Some e') /\
     forall res, json.Marshal (Addrs t) = inl res ->
                 GetResult t = (Some res, Some e)) /\
  (forall e hs t',
     Forall (fun h => is_Stop h = false) hs ->
     invoke_all (Stop t (Some e)) hs = Some t' ->
     reason t' = Some e).
Proof.
  unfold GetResult. split; [|split].
  - intros Hnone res ->. rewrite Hnone. reflexivity.
  - intros e He. split.
    + destruct (json.Marshal (Addrs t)); cbn; rewrite ?He; eauto.
    + intros res ->. rewrite He. reflexivity.
  - intros e hs t' Hns Hrun.
    rewrite (invoke_all_reason _ _ _ Hns Hrun). reflexivity.
Qed.

(** When [NewContractTracer] replaces the configured name. *)
Lemma sentinel_condition (c : contractTracerConfig) :
  Byte.eqb (vm.StringToOp (OpCode c)) x00
  && negb (String.eqb (OpCode c) "STOP")
  && negb (String.eqb (OpCode c) "") = true <->
  vm.StringToOp (OpCode c) = x00 /\ OpCode c <> "STOP" /\ OpCode c <> "".
Proof.
  rewrite !andb_true_iff, !negb_true_iff, !String.eqb_neq. split.
  - intros [[Hop%Byte.byte_dec_bl Hstop] Hempty]. auto.
  - intros (Hop & Hstop & Hempty). rewrite (Byte.byte_dec_lb Hop). auto.
Qed.

(** C6 (as amended): construction fails exactly when a configuration is
    present and [json.Unmarshal] rejects it, with the decoder's error;
    whenever the configuration is absent or decodes, construction succeeds
    with an empty mapping and a clear interruption flag, whatever the
    opcode name: a name that the instruction table does not know is
    replaced by the sentinel [inv], and any other name is kept. *)
Theorem NewContractTracer_succeeds (cfg : option RawMessage) :
  (forall e,
     NewContractTracer cfg = inr e ->
     exists raw, cfg = Some raw /\ json.Unmarshal raw = inr e) /\
  (forall raw e,
     cfg = Some raw -> json.Unmarshal raw = inr e ->
     NewContractTracer cfg = inr e) /\
  (forall c,
     decode_config cfg = inl c ->
     exists t,
       NewContractTracer cfg = inl t /\
       Addrs t = ∅ /\ interrupt t = 0%N /\ reason t = None /\
       WithByteCode (config t) = WithByteCode c /\
       (vm.StringToOp (OpCode c) = x00 -> OpCode c <> "STOP" ->
        OpCode c <> "" -> OpCode (config t) = "inv") /\
       (vm.StringToOp (OpCode c) <> x00 \/ OpCode c = "STOP" \/
        OpCode c = "" ->
        OpCode (config t) = OpCode c)).
Proof.
  split.
  { intros e. unfold NewContractTracer, decode_config.
    destruct cfg as [raw|].
    - destruct (json.Unmarshal raw) as [c|e'] eqn:Hdec.
      + destruct (_ && _ && _); discriminate.
      + intros [= <-]. eauto.
    - destruct (_ && _ && _); discriminate. }
  split.
  { intros raw e -> Hdec. unfold NewContractTracer, decode_config.
    rewrite Hdec. reflexivity. }
  intros c Hdec. unfold NewContractTracer. rewrite Hdec.
  pose proof (sentinel_condition c) as Hcond.
  destruct (Byte.eqb (vm.StringToOp (OpCode c)) x00 && _ && _);
    eexists; (split; [reflexivity|]); cbn;
    do 4 (split; [reflexivity|]); split.
  - reflexivity.
  - destruct (proj1 Hcond eq_refl) as (Hop & Hstop & Hempty).
    intros [Hne | [He | He]]; contradiction.
  - intros Hop Hstop Hempty.
    assert (Hno : false = true) by (apply Hcond; auto). discriminate.
  - reflexivity.
Qed.

(** C7: a creation that passes the filter is stored under [addrToHex to],
    as the empty marker or as [bytesToHex input] according to
    [WithByteCode]; a later creation at the same address replaces the
    stored value, leaving one entry for that address. *)
Theorem validateAndStoreOpCode_records (t : contractTracer)
  (input : list byte) (to : Address) :
  passes_filter t input ->
  exists t',
    validateAndStoreOpCode t input to = Some t' /\
    Addrs t' = <[addrToHex to :=
                   if WithByteCode (config t) then bytesToHex input else ""]>
                 (Addrs t) /\
    forall later, passes_filter t' later ->
      exists t'',
        validateAndStoreOpCode t' later to = Some t'' /\
        Addrs t'' !! addrToHex to =
          Some (if WithByteCode (config t) then bytesToHex later else "") /\
        Addrs t'' = <[addrToHex to :=
                        if WithByteCode (config t) then bytesToHex later
                        else ""]> (Addrs t) /\
        size (Addrs t'') = size (Addrs t').
Proof.
  intros Hpass. exists (store t input to).
  split; [apply validateAndStoreOpCode_passes, Hpass|].
  split; [reflexivity|].
  intros later Hlater. exists (store (store t input to) later to).
  split; [apply validateAndStoreOpCode_passes, Hlater|]. cbn.
  unfold observation at 1 3 4; cbn. fold (observation t input).
  split; [apply lookup_insert_eq|].
  split; [apply insert_insert_eq|].
  rewrite insert_insert_eq.
  destruct (Addrs t !! addrToHex to) as [old|] eqn:Hold.
  - rewrite !map_size_insert_Some; eauto.
  - rewrite !map_size_insert_None; eauto.
Qed.

(** C10 (as amended): the name [STOP], whose code is the zero byte, is kept
    as a filter, and a creation whose bytecode has [0x00] as an instruction
    is then recorded; every other non-empty name that parses to the zero
    code is replaced by the sentinel, after which nothing is recorded. *)
Theorem STOP_is_a_valid_filter (cfg : option RawMessage)
  (c : contractTracerConfig) :
  vm.StringToOp "STOP" = x00 ->
  vm.IsPush x00 = false ->
  decode_config cfg = inl c ->
  exists t,
    NewContractTracer cfg = inl t /\
    (OpCode c = "STOP" ->
     OpCode (config t) = "STOP" /\
     forall h input to,
       creation_event h = Some (input, to) ->
       (exists j, genuine_at input x00 j) ->
       invoke t h = Some (store t input to) /\
       Addrs (store t input to) !! addrToHex to
       = Some (observation t input)) /\
    (OpCode c <> "STOP" -> OpCode c <> "" ->
     vm.StringToOp (OpCode c) = x00 ->
     OpCode (config t) = "inv" /\
     forall hs, exists t', invoke_all t hs = Some t' /\ Addrs t' = ∅).
Proof.
  intros Hstop0 Hnp Hdec. unfold NewContractTracer. rewrite Hdec.
  pose proof (sentinel_condition c) as Hcond.
  destruct (Byte.eqb (vm.StringToOp (OpCode c)) x00 && _ && _);
    eexists; (split; [reflexivity|]); split.
  - intros Hname. destruct (proj1 Hcond eq_refl) as (_ & Hns & _).
    contradiction.
  - intros _ _ _. split; [reflexivity|].
    intros hs. destruct (invoke_all_inv (set_OpCode
      {| Addrs := ∅; config := c; interrupt := 0%N; reason := None |} "inv")
      hs eq_refl) as (t' & Hall & Hsame).
    exists t'. split; [exact Hall | exact Hsame].
  - intros Hname. split; [exact Hname|].
    intros h input to Hev Hgenuine.
    rewrite (invoke_running
      {| Addrs := ∅; config := c; interrupt := 0%N; reason := None |}
      h input to eq_refl Hev).
    split; [|apply store_lookup].
    apply validateAndStoreOpCode_passes. split; cbn.
    + rewrite Hname. discriminate.
    + right. rewrite Hname, Hstop0. apply findOpcodes_true_iff. auto.
  - intros Hns Hne Hzero.
    assert (Hno : false = true) by (apply Hcond; auto). discriminate.
Qed.

End TracerFacts.

(** ** The gas-estimation engine *)

Section EstimatorFacts.
Import backends.
Local Open Scope N_scope.

Lemma bisect_step probe failing passing :
  bisect probe failing passing =
  if decide (passing - failing <= 1) then inl passing
  else match probe ((failing + passing) / 2) with
       | None => bisect probe failing ((failing + passing) / 2)
       | Some f =>
           if attributable_to_gas f
           then bisect probe ((failing + passing) / 2) passing
           else inr (always_failing f)
       end.
Proof.
  match goal with |- _ = ?rhs => set (unfolded := rhs) end.
  simp bisect. subst unfolded.
  destruct (decide (passing - failing <= 1)); cbn; [reflexivity|].
  destruct (probe ((failing + passing) / 2)); reflexivity.
Qed.

Lemma string_append_assoc (a b c : string) :
  ((a +:+ b) +:+ c = a +:+ (b +:+ c))%string.
Proof.
  induction a as [|ch a IH]; [reflexivity|].
  change (String ch ((a +:+ b) +:+ c) = String ch (a +:+ (b +:+ c)))%string.
  rewrite IH. reflexivity.
Qed.

Ltac midpoint_arith := zify; Z.div_mod_to_equations; lia.

(** Induction on the width of the search interval. *)
Lemma interval_ind (P : N -> N -> Prop) :
  (forall lower upper,
     (forall lower' upper', upper' - lower' < upper - lower ->
                            P lower' upper') ->
     P lower upper) ->
  forall lower upper, P lower upper.
Proof.
  intros Hstep lower upper.
  remember (N.to_nat (upper - lower)) as n eqn:Hn.
  revert lower upper Hn. induction n as [n IH] using lt_wf_ind.
  intros lower upper ->. apply Hstep. intros lower' upper' Hlt.
  apply (IH (N.to_nat (upper' - lower'))); [lia | reflexivity].
Qed.

Lemma bisect_converged probe failing passing :
  passing - failing <= 1 -> bisect probe failing passing = inl passing.
Proof.
  intros Hgap. rewrite bisect_step.
  destruct (decide (passing - failing <= 1)); [reflexivity | contradiction].
Qed.

(** The loop invariant of the search (invariant 3): the lower bound fails,
    the upper bound succeeds; so a value that the search returns is the
    least one that succeeds. *)
Lemma bisect_sound (probe : N -> option fault) :
  (forall g g', probe g = None -> g < g' -> probe g' = None) ->
  forall failing passing,
    probe failing <> None -> probe passing = None ->
    forall g, bisect probe failing passing = inl g ->
              probe g = None /\ forall g', probe g' = None -> g <= g'.
Proof.
  intros Hmono failing passing.
  induction failing, passing as [failing passing IH] using interval_ind.
  intros Hfail Hok g. rewrite bisect_step.
  assert (Hlt : failing < passing).
  { destruct (N.lt_ge_cases failing passing) as [|Hge]; [assumption|].
    exfalso. apply Hfail.
    destruct (N.eq_dec passing failing) as [<-|Hne]; [assumption|].
    apply (Hmono passing); [assumption | lia]. }
  destruct (decide (passing - failing <= 1)) as [Hgap|Hgap].
  - intros [= <-]. split; [exact Hok|].
    intros g' Hg'.
    destruct (N.lt_ge_cases g' passing) as [Hsmall|]; [|assumption].
    exfalso. apply Hfail.
    destruct (N.eq_dec g' failing) as [<-|Hne]; [assumption|].
    apply (Hmono g'); [assumption | lia].
  - destruct (probe ((failing + passing) / 2)) as [f|] eqn:Hmid.
    + destruct (attributable_to_gas f); [|discriminate].
      apply IH; [midpoint_arith | congruence | exact Hok].
    + apply IH; [midpoint_arith | exact Hfail | exact Hmid].
Qed.

(** The search ends with a value when no probe fails for a reason other
    than want of gas. *)
Lemma bisect_returns (probe : N -> option fault) :
  (forall g f, probe g = Some f -> attributable_to_gas f = true) ->
  forall failing passing, exists g, bisect probe failing passing = inl g.
Proof.
  intros Hgas failing passing.
  induction failing, passing as [failing passing IH] using interval_ind.
  rewrite bisect_step.
  destruct (decide (passing - failing <= 1)) as [Hgap|Hgap]; [eauto|].
  destruct (probe ((failing + passing) / 2)) as [f|] eqn:Hmid.
  - rewrite (Hgas _ _ Hmid). apply IH. midpoint_arith.
  - apply IH. midpoint_arith.
Qed.

(** The search fails only on a probe whose failure is not for want of gas,
    and reports that failure. *)
Lemma bisect_error (probe : N -> option fault) failing passing text :
  bisect probe failing passing = inr text ->
  exists g f, probe g = Some f /\ attributable_to_gas f = false /\
              text = always_failing f.
Proof.
  induction failing, passing as [failing passing IH] using interval_ind.
  rewrite bisect_step.
  destruct (decide (passing - failing <= 1)) as [Hgap|Hgap]; [discriminate|].
  destruct (probe ((failing + passing) / 2)) as [f|] eqn:Hmid.
  - destruct (attributable_to_gas f) eqn:Hattr.
    + apply IH. midpoint_arith.
    + intros [= <-]. eauto.
  - apply IH. midpoint_arith.
Qed.

(** When the value just above the lower bound succeeds, the search ends
    there. *)
Lemma bisect_all_pass (probe : N -> option fault) :
  (forall g g', probe g = None -> g < g' -> probe g' = None) ->
  forall failing passing,
    probe (failing + 1) = None -> failing < passing ->
    bisect probe failing passing = inl (failing + 1).
Proof.
  intros Hmono failing passing.
  induction failing, passing as [failing passing IH] using interval_ind.
  intros Hnext Hlt. rewrite bisect_step.
  destruct (decide (passing - failing <= 1)) as [Hgap|Hgap].
  - f_equal. lia.
  - assert (Hmid : probe ((failing + passing) / 2) = None).
    { destruct (N.eq_dec ((failing + passing) / 2) (failing + 1)) as [->|Hne];
        [exact Hnext|].
      apply (Hmono (failing + 1)); [exact Hnext | midpoint_arith]. }
    rewrite Hmid. apply IH; [midpoint_arith | exact Hnext | midpoint_arith].
Qed.

Lemma execute_below_floor intrinsic_floor run msg g :
  g < N.pos (intrinsic_floor msg) ->
  execute intrinsic_floor run msg g = Some OutOfGas.
Proof.
  intros Hlt. unfold execute.
  destruct (N.ltb_spec g (N.pos (intrinsic_floor msg))); [reflexivity | lia].
Qed.

Lemma classify_not_gas f cap :
  attributable_to_gas f = false -> classify f cap = always_failing f.
Proof. intros Hf. unfold classify. rewrite Hf. reflexivity. Qed.

(** The digits written for a gas value read back as that value. *)
Lemma decimal_reads_back (n : N) :
  N.of_uint <$> DecimalString.NilEmpty.uint_of_string (decimal n) = Some n.
Proof.
  unfold decimal. rewrite DecimalString.NilEmpty.usu. cbn.
  rewrite DecimalN.Unsigned.of_to. reflexivity.
Qed.

(** C8: when the feasibility probe at the upper bound fails, the estimate is
    an error whose text is the classification of that failure, and every
    error the engine returns is the classification of a failure that the
    executor reported. The text is, for a revert, the always-failing text,
    with the decoded reason appended in parentheses when there is one; for
    an invalid instruction, the always-failing text around the executor's
    description of it; for want of gas, the allowance text holding digits
    that read back, in decimal, as the upper bound, which is the caller's
    cap when one is given. The text for want of gas is never that of
    another failure. *)
Theorem EstimateGas_error_messages (intrinsic_floor : CallMsg -> positive)
  (run : CallMsg -> N -> option fault) (ceiling : N) (msg : CallMsg) :
  (forall f,
     execute intrinsic_floor run msg (upper_bound ceiling msg) = Some f ->
     EstimateGas intrinsic_floor run ceiling msg
     = inr (classify f (upper_bound ceiling msg))) /\
  (forall text,
     EstimateGas intrinsic_floor run ceiling msg = inr text ->
     exists g f, execute intrinsic_floor run msg g = Some f /\
                 text = classify f (upper_bound ceiling msg)) /\
  (execute intrinsic_floor run msg (upper_bound ceiling msg)
   = Some (Revert None) ->
   EstimateGas intrinsic_floor run ceiling msg
   = inr "always failing transaction (execution reverted)"%string) /\
  (forall why,
     execute intrinsic_floor run msg (upper_bound ceiling msg)
     = Some (Revert (Some why)) ->
     EstimateGas intrinsic_floor run ceiling msg
     = inr ("always failing transaction (execution reverted) ("
            +:+ why +:+ ")")) /\
  (forall text,
     execute intrinsic_floor run msg (upper_bound ceiling msg)
     = Some (InvalidInstruction text) ->
     EstimateGas intrinsic_floor run ceiling msg
     = inr ("always failing transaction (" +:+ text +:+ ")")) /\
  (execute intrinsic_floor run msg (upper_bound ceiling msg)
   = Some OutOfGas ->
   exists digits,
     EstimateGas intrinsic_floor run ceiling msg
     = inr ("gas required exceeds allowance (" +:+ digits +:+ ")") /\
     N.of_uint <$> DecimalString.NilEmpty.uint_of_string digits
     = Some (upper_bound ceiling msg)) /\
  (0 < Gas msg -> upper_bound ceiling msg = Gas msg) /\
  (forall f f' cap cap',
     attributable_to_gas f = true -> attributable_to_gas f' = false ->
     classify f cap <> classify f' cap').
Proof.
  assert (Hprobe : forall f,
    execute intrinsic_floor run msg (upper_bound ceiling msg) = Some f ->
    EstimateGas intrinsic_floor run ceiling msg
    = inr (classify f (upper_bound ceiling msg))).
  { intros f Hf. unfold EstimateGas. rewrite Hf. reflexivity. }
  split; [exact Hprobe|]. split.
  { intros text. unfold EstimateGas.
    destruct (execute intrinsic_floor run msg (upper_bound ceiling msg))
      as [f|] eqn:Hf.
    - intros [= <-]. eauto.
    - destruct (plain_transfer msg && _); [discriminate|].
      intros (g & f & Hg & Hkind & ->)%bisect_error.
      exists g, f. split; [exact Hg|].
      symmetry. apply classify_not_gas, Hkind. }
  split; [intros Hf; rewrite (Hprobe _ Hf); reflexivity|].
  split; [intros why Hf; rewrite (Hprobe _ Hf); reflexivity|].
  split; [intros text Hf; rewrite (Hprobe _ Hf); reflexivity|].
  split.
  { intros Hf. exists (decimal (upper_bound ceiling msg)).
    split; [rewrite (Hprobe _ Hf); reflexivity | apply decimal_reads_back]. }
  split.
  { intros Hcap. unfold upper_bound.
    destruct (N.ltb_spec 0 (Gas msg)); [reflexivity | lia]. }
  intros f f' cap cap' Hgas Hnot Heq.
  unfold classify in Heq. rewrite Hgas, Hnot in Heq.
  apply (f_equal (String.get 0)) in Heq. discriminate Heq.
Qed.

(** C9 (as amended): for a call whose success is monotonic in gas, a gas
    value that the engine returns is the least one at which the call
    succeeds; the engine returns a value when the call succeeds at the
    upper bound and its failures are all for want of gas, and the
    classified error of step 2 when the call fails at the upper bound; a
    call that succeeds at its intrinsic floor, such as a plain transfer
    between funded accounts, is estimated at that floor, by the shortcut
    and by the full search alike. The search has converged, and returns its
    upper bound, once the bounds are at most one apart. *)
Theorem EstimateGas_minimal (intrinsic_floor : CallMsg -> positive)
  (run : CallMsg -> N -> option fault) (ceiling : N) (msg : CallMsg) :
  (forall g g',
     execute intrinsic_floor run msg g = None -> g < g' ->
     execute intrinsic_floor run msg g' = None) ->
  (forall g,
     EstimateGas intrinsic_floor run ceiling msg = inl g ->
     execute intrinsic_floor run msg g = None /\
     forall g', execute intrinsic_floor run msg g' = None -> g <= g') /\
  (execute intrinsic_floor run msg (upper_bound ceiling msg) = None ->
   (forall g f, execute intrinsic_floor run msg g = Some f ->
                attributable_to_gas f = true) ->
   exists g, EstimateGas intrinsic_floor run ceiling msg = inl g) /\
  (forall f,
     execute intrinsic_floor run msg (upper_bound ceiling msg) = Some f ->
     EstimateGas intrinsic_floor run ceiling msg
     = inr (classify f (upper_bound ceiling msg))) /\
  (execute intrinsic_floor run msg (N.pos (intrinsic_floor msg)) = None ->
   N.pos (intrinsic_floor msg) <= upper_bound ceiling msg ->
   EstimateGas intrinsic_floor run ceiling msg
   = inl (N.pos (intrinsic_floor msg)) /\
   bisect (execute intrinsic_floor run msg)
     (Pos.pred_N (intrinsic_floor msg)) (upper_bound ceiling msg)
   = inl (N.pos (intrinsic_floor msg))) /\
  (forall failing passing,
     passing - failing <= 1 ->
     bisect (execute intrinsic_floor run msg) failing passing
     = inl passing).
Proof.
  intros Hmono.
  pose proof (N.succ_pos_pred (intrinsic_floor msg)) as Hfloor.
  assert (Hbelow : execute intrinsic_floor run msg
                     (Pos.pred_N (intrinsic_floor msg)) <> None).
  { rewrite execute_below_floor by lia. discriminate. }
  split; [|split; [|split; [|split]]].
  - intros g. unfold EstimateGas.
    destruct (execute intrinsic_floor run msg (upper_bound ceiling msg))
      as [f|] eqn:Hupper; [discriminate|].
    destruct (plain_transfer msg && _) eqn:Hshort.
    + intros [= <-].
      apply andb_true_iff in Hshort as [_ Hat%bool_decide_eq_true].
      split; [exact Hat|]. intros g' Hg'.
      destruct (N.lt_ge_cases g' (N.pos (intrinsic_floor msg))) as [Hlow|];
        [|assumption].
      rewrite (execute_below_floor _ _ _ _ Hlow) in Hg'. discriminate.
    + apply bisect_sound; assumption.
  - intros Hupper Hgas. unfold EstimateGas. rewrite Hupper.
    destruct (plain_transfer msg && _); [eauto|].
    apply bisect_returns, Hgas.
  - intros f Hupper. unfold EstimateGas. rewrite Hupper. reflexivity.
  - intros Hat Hle.
    assert (Hupper : execute intrinsic_floor run msg
                       (upper_bound ceiling msg) = None).
    { destruct (N.eq_dec (N.pos (intrinsic_floor msg))
                  (upper_bound ceiling msg)) as [<-|Hne]; [exact Hat|].
      apply (Hmono (N.pos (intrinsic_floor msg))); [exact Hat | lia]. }
    assert (Hfull : bisect (execute intrinsic_floor run msg)
                      (Pos.pred_N (intrinsic_floor msg))
                      (upper_bound ceiling msg)
                    = inl (N.pos (intrinsic_floor msg))).
    { replace (N.pos (intrinsic_floor msg))
        with (Pos.pred_N (intrinsic_floor msg) + 1)
        by (rewrite N.add_1_r; exact Hfloor).
      apply bisect_all_pass; [exact Hmono | | lia].
      rewrite N.add_1_r, Hfloor. exact Hat. }
    split; [|exact Hfull].
    unfold EstimateGas. rewrite Hupper.
    destruct (plain_transfer msg && _); [reflexivity | exact Hfull].
  - intros failing passing. apply bisect_converged.
Qed.

End EstimatorFacts.

(** ** The definitions at concrete inputs *)

Section Concrete.
Import scenario.
#[local] Existing Instance evm.ops.
#[local] Existing Instance sample.codec.
#[local] Existing Instance hex_render.

(** *** The scanner *)

Example findOpcodes_skips_push_data :
  findOpcodes push_ff xff = Some false.
Proof. reflexivity. Qed.

Example findOpcodes_finds_instruction :
  findOpcodes selfdestructing xff = Some true.
Proof. reflexivity. Qed.

Example findOpcodes_truncated_push :
  findOpcodes truncated_push xff = Some false.
Proof. reflexivity. Qed.

(** C2, where the claim fails: [PUSH1] heads the first instruction of the
    sequence and is not found. *)
Lemma findOpcodes_misses_push_target :
  genuine_at push_then_stop x60 0 /\
  findOpcodes push_then_stop x60 = Some false.
Proof. split; [split; [constructor | reflexivity] | reflexivity]. Qed.

Lemma findOpcodes_genuine_occurrence_witness :
  findOpcodes push_ff xff = Some false /\
  findOpcodes selfdestructing xff = Some true.
Proof.
  split.
  - apply (proj1 (findOpcodes_genuine_occurrence push_ff xff)).
    intros [|[|j]] Hj; try discriminate Hj.
    exists 0, x60. split; [constructor|].
    split; [reflexivity|]. split; [reflexivity|]. vm_compute. auto.
  - apply (proj1 (proj2 (findOpcodes_genuine_occurrence selfdestructing xff)));
      [reflexivity|].
    exists 2. split; [|reflexivity].
    exact (instr_at_next selfdestructing 0 x60
             (instr_at_start selfdestructing) eq_refl).
Defined.

Lemma findOpcodes_terminates_in_bounds_witness :
  findOpcodes_from truncated_push xff 1 = Some false.
Proof.
  apply (proj2 (proj2 (proj2
           (findOpcodes_terminates_in_bounds truncated_push xff))) 1 x61);
    [reflexivity | reflexivity | vm_compute; auto].
Defined.

(** *** The tracer *)

Example NewContractTracer_absent : NewContractTracer None = inl fresh.
Proof. reflexivity. Qed.

(** C1, where the code departs from it: a tracer built without a filter is
    cancelled, and the [CaptureStart] of a deployment that follows still
    writes the created address into the mapping. *)
Theorem CaptureStart_after_Stop_mutates :
  NewContractTracer None = inl fresh /\
  Addrs (Stop fresh timeout) !! addrToHex created = None /\
  exists t',
    invoke (Stop fresh timeout) (deployment push_then_stop) = Some t' /\
    Addrs t' !! addrToHex created = Some ""%string.
Proof.
  split; [reflexivity|]. split; [reflexivity|].
  eexists. split; [reflexivity|]. apply lookup_insert_eq.
Qed.

(** C3, where the claim fails: with the empty filter, a [CREATE] frame
    entered after cancellation is not recorded. *)
Lemma CaptureEnter_after_Stop_records_nothing :
  OpCode (config (Stop fresh timeout)) = ""%string /\
  creation_event (inner_create push_then_stop)
  = Some (push_then_stop, created) /\
  invoke (Stop fresh timeout) (inner_create push_then_stop)
  = Some (Stop fresh timeout) /\
  Addrs (Stop fresh timeout) !! addrToHex created = None.
Proof. repeat split. Qed.

Lemma creation_event_filter_witness :
  interrupt selfdestruct_tracer = 0%N /\
  creation_event (deployment selfdestructing)
  = Some (selfdestructing, created) /\
  exists found,
    findOpcodes selfdestructing
      (vm.StringToOp (OpCode (config selfdestruct_tracer))) = Some found /\
    invoke selfdestruct_tracer (deployment selfdestructing)
    = Some (if found then store selfdestruct_tracer selfdestructing created
            else selfdestruct_tracer).
Proof.
  split; [reflexivity|]. split; [reflexivity|].
  apply (proj2 (proj2
           (proj1 (creation_event_filter selfdestruct_tracer
                     (deployment selfdestructing) selfdestructing created
                     eq_refl) eq_refl))); discriminate.
Defined.

Lemma GetResult_propagates_reason_witness :
  reason (Stop fresh timeout) = timeout /\
  exists e', (GetResult (Stop fresh timeout)).2 = Some e'.
Proof.
  split; [reflexivity|].
  exact (proj1 (proj1 (proj2 (GetResult_propagates_reason (Stop fresh timeout)))
                  "execution timeout"%string eq_refl)).
Defined.

Lemma NewContractTracer_succeeds_witness :
  decode_config nope_document
  = inl {| OpCode := "NOPE"; WithByteCode := false |} /\
  exists t, NewContractTracer nope_document = inl t /\
            OpCode (config t) = "inv"%string.
Proof.
  assert (Hdec : decode_config nope_document
                 = inl {| OpCode := "NOPE"; WithByteCode := false |})
    by reflexivity.
  split; [exact Hdec|].
  destruct (proj2 (proj2 (NewContractTracer_succeeds nope_document))
              {| OpCode := "NOPE"; WithByteCode := false |} Hdec)
    as (t & Hnew & _ & _ & _ & _ & Hsentinel & _).
  exists t. split; [exact Hnew|].
  apply Hsentinel; [reflexivity | discriminate | discriminate].
Defined.

Lemma validateAndStoreOpCode_records_witness :
  passes_filter fresh push_then_stop /\
  exists t',
    validateAndStoreOpCode fresh push_then_stop created = Some t' /\
    Addrs t' = <[addrToHex created := ""%string]> (Addrs fresh).
Proof.
  assert (Hpass : passes_filter fresh push_then_stop).
  { split; [discriminate | left; reflexivity]. }
  split; [exact Hpass|].
  destruct (validateAndStoreOpCode_records fresh push_then_stop created Hpass)
    as (t' & Hstore & Haddrs & _).
  exists t'. split; [exact Hstore | exact Haddrs].
Defined.

(** C10, where the claim fails: the empty name parses to the zero code and
    is not [STOP], yet it is kept, and a creation is recorded. *)
Lemma empty_name_is_not_normalized :
  vm.StringToOp "" = x00 /\
  ""%string <> "STOP"%string /\
  NewContractTracer None = inl fresh /\
  OpCode (config fresh) = ""%string /\
  exists t',
    invoke fresh (deployment push_then_stop) = Some t' /\
    Addrs t' !! addrToHex created = Some ""%string.
Proof.
  split; [reflexivity|]. split; [discriminate|].
  split; [reflexivity|]. split; [reflexivity|].
  eexists. split; [reflexivity|]. apply lookup_insert_eq.
Qed.

Lemma STOP_is_a_valid_filter_witness :
  vm.StringToOp "STOP" = x00 /\ vm.IsPush x00 = false /\
  decode_config stop_document
  = inl {| OpCode := "STOP"; WithByteCode := false |} /\
  exists t, NewContractTracer stop_document = inl t /\
            OpCode (config t) = "STOP"%string.
Proof.
  assert (Hdec : decode_config stop_document
                 = inl {| OpCode := "STOP"; WithByteCode := false |})
    by reflexivity.
  assert (Hzero : vm.StringToOp "STOP" = x00) by reflexivity.
  assert (Hplain : vm.IsPush x00 = false) by reflexivity.
  split; [exact Hzero|]. split; [exact Hplain|]. split; [exact Hdec|].
  destruct (STOP_is_a_valid_filter stop_document
              {| OpCode := "STOP"; WithByteCode := false |}
              Hzero Hplain Hdec) as (t & Hnew & Hstop & _).
  exists t. split; [exact Hnew|]. apply Hstop. reflexivity.
Defined.

(** *** The estimator, on the cases of [TestSimulatedBackend_EstimateGas] *)

Import backends.

Example estimate_plain_transfer :
  EstimateGas (floor 21000) (needs 21000) block_gas_limit transfer
  = inl 21000%N.
Proof. reflexivity. Qed.

Example estimate_transfer_to_contract :
  EstimateGas (floor 21000) (always (Revert None)) block_gas_limit
    (call 0 [])
  = inr "always failing transaction (execution reverted)"%string.
Proof. reflexivity. Qed.

Example estimate_valid :
  EstimateGas (floor 21000) (needs 21275) block_gas_limit
    (call 100000 [xe0; x9f; xfa; xce])
  = inl 21275%N.
Proof. vm_compute. reflexivity. Qed.

Example estimate_pure_revert :
  EstimateGas (floor 21000) (always (Revert None)) block_gas_limit
    (call 0 [xaa; x8b; x1d; x30])
  = inr "always failing transaction (execution reverted)"%string.
Proof. reflexivity. Qed.

Example estimate_revert :
  EstimateGas (floor 21000) (always (Revert (Some "revert reason"%string)))
    block_gas_limit (call 0 [xd8; xb9; x83; x91])
  = inr "always failing transaction (execution reverted) (revert reason)"%string.
Proof. reflexivity. Qed.

Example estimate_out_of_gas :
  EstimateGas (floor 21000) (always OutOfGas) block_gas_limit
    (call 100000 [x50; xf6; xfe; x34])
  = inr "gas required exceeds allowance (100000)"%string.
Proof. reflexivity. Qed.

Example estimate_assert :
  EstimateGas (floor 21000)
    (always (InvalidInstruction
               "invalid opcode: opcode 0xfe not defined"%string))
    block_gas_limit (call 100000 [xb9; xb0; x46; xf9])
  = inr "always failing transaction (invalid opcode: opcode 0xfe not defined)"%string.
Proof. reflexivity. Qed.

(** The full search on the plain transfer, without the shortcut. *)
Example search_plain_transfer :
  bisect (execute (floor 21000) (needs 21000) transfer)
    (Pos.pred_N 21000) block_gas_limit
  = inl 21000%N.
Proof. vm_compute. reflexivity. Qed.

Lemma EstimateGas_error_messages_witness :
  execute (floor 21000) (needs 250001) (call 250000 [])
    (upper_bound block_gas_limit (call 250000 []))
  = Some OutOfGas /\
  EstimateGas (floor 21000) (needs 250001) block_gas_limit (call 250000 [])
  = inr "gas required exceeds allowance (250000)"%string.
Proof.
  assert (Hprobe : execute (floor 21000) (needs 250001) (call 250000 [])
                     (upper_bound block_gas_limit (call 250000 []))
                   = Some OutOfGas) by reflexivity.
  split; [exact Hprobe|].
  exact (proj1 (EstimateGas_error_messages (floor 21000) (needs 250001)
                  block_gas_limit (call 250000 [])) OutOfGas Hprobe).
Defined.

Lemma needs_monotonic base need msg (g g' : N) :
  execute (floor base) (needs need) msg g = None -> (g < g')%N ->
  execute (floor base) (needs need) msg g' = None.
Proof.
  unfold execute, needs, floor.
  destruct (N.ltb_spec g (N.pos base)); [discriminate|].
  destruct (N.ltb_spec g need); [discriminate|]. intros _ Hlt.
  destruct (N.ltb_spec g' (N.pos base)); [lia|].
  destruct (N.ltb_spec g' need); [lia | reflexivity].
Defined.

(** C9, where the claim fails: a call whose success is monotonic in gas and
    that needs one unit more than the caller's cap; the estimate is the
    error of step 2, not the least gas value at which the call succeeds. *)
Lemma EstimateGas_fails_above_cap :
  (forall g g',
     execute (floor 21000) (needs 100001) (call 100000 [x50; xf6; xfe; x34]) g
     = None ->
     (g < g')%N ->
     execute (floor 21000) (needs 100001) (call 100000 [x50; xf6; xfe; x34]) g'
     = None) /\
  execute (floor 21000) (needs 100001) (call 100000 [x50; xf6; xfe; x34])
    100001%N = None /\
  EstimateGas (floor 21000) (needs 100001) block_gas_limit
    (call 100000 [x50; xf6; xfe; x34])
  = inr "gas required exceeds allowance (100000)"%string.
Proof.
  split; [apply needs_monotonic|]. split; reflexivity.
Qed.

Lemma EstimateGas_minimal_witness :
  EstimateGas (floor 21064) (needs 21275) block_gas_limit
    (call 0 [xe0; x9f; xfa; xce]) = inl 21275%N /\
  execute (floor 21064) (needs 21275) (call 0 [xe0; x9f; xfa; xce]) 21275%N
  = None /\
  forall g',
    execute (floor 21064) (needs 21275) (call 0 [xe0; x9f; xfa; xce]) g'
    = None ->
    (21275 <= g')%N.
Proof.
  assert (Hvalue : EstimateGas (floor 21064) (needs 21275) block_gas_limit
                     (call 0 [xe0; x9f; xfa; xce]) = inl 21275%N)
    by (vm_compute; reflexivity).
  split; [exact Hvalue|].
  exact (proj1 (EstimateGas_minimal (floor 21064) (needs 21275)
                  block_gas_limit (call 0 [xe0; x9f; xfa; xce])
                  (needs_monotonic 21064 21275 _))
           21275%N Hvalue).
Defined.

End Concrete.

(** *** Documents that are valid JSON and do not decode *)

Section ConcreteDocuments.
#[local] Existing Instance evm.ops.
#[local] Existing Instance gojson.codec.
#[local] Existing Instance hex_render.

Example decode_selfdestruct_document :
  NewContractTracer scenario.selfdestruct_document
  = inl scenario.selfdestruct_tracer.
Proof. reflexivity. Qed.

Example decode_null_document :
  NewContractTracer (scenario.document "null") = inl scenario.fresh.
Proof. reflexivity. Qed.

(** C6, where the claim fails: the empty array, and an object whose
    [opCode] member is a number, are valid JSON, and construction fails on
    both. *)
Lemma valid_json_is_rejected :
  gojson.Valid [x5b; x5d] = true /\
  NewContractTracer (Some [x5b; x5d])
  = inr ("json: cannot unmarshal array into Go value of type "
         +:+ "native.contractTracerConfig") /\
  gojson.Valid
    (list_byte_of_string (sample.object [sample.member "opCode" "7"]))
  = true /\
  NewContractTracer
    (scenario.document (sample.object [sample.member "opCode" "7"]))
  = inr ("json: cannot unmarshal number into Go struct field "
         +:+ "contractTracerConfig.opCode of type string").
Proof. repeat split. Qed.

End ConcreteDocuments.

(** * Further properties *)

(** ** The scanner as a function on lists *)

Section ScannerLists.
Context {VM : vm.Ops}.

(** The scan of a suffix is the scan of the whole sequence from the
    suffix's offset. *)
Lemma findOpcodes_from_shift (pre suf : list byte) (opcode : vm.OpCode) k :
  findOpcodes_from (pre ++ suf) opcode (length pre + k)
  = findOpcodes_from suf opcode k.
Proof.
  induction k as [k IH] using (cursor_ind suf).
  rewrite (findOpcodes_from_step (pre ++ suf)), (findOpcodes_from_step suf).
  unfold scan_step. rewrite length_app, lookup_app_r by lia.
  replace (length pre + k - length pre) with k by lia.
  destruct (Nat.ltb_spec k (length suf)) as [Hlt|Hge].
  - destruct (Nat.ltb_spec (length pre + k) (length pre + length suf));
      [|lia].
    destruct (suf !! k) as [op|]; [|reflexivity].
    destruct (vm.IsPush op).
    + replace (length pre + k + push_operands op + 1)
        with (length pre + (k + push_operands op + 1)) by lia.
      apply IH; [lia | exact Hlt].
    + destruct (Byte.eqb op opcode); [reflexivity|].
      replace (length pre + k + 1) with (length pre + (k + 1)) by lia.
      apply IH; [lia | exact Hlt].
  - destruct (Nat.ltb_spec (length pre + k) (length pre + length suf));
      [lia | reflexivity].
Qed.

(** X1: the scan finds only bytes of the sequence: an answer of [true]
    means that the target occurs in the bytecode and is not push-class, and
    a target that does not occur, in the empty sequence in particular, is
    answered with [false]. *)
Theorem findOpcodes_only_members (bytecode : list byte)
  (opcode : vm.OpCode) :
  (findOpcodes bytecode opcode = Some true ->
   opcode ∈ bytecode /\ vm.IsPush opcode = false) /\
  (opcode ∉ bytecode -> findOpcodes bytecode opcode = Some false) /\
  findOpcodes [] opcode = Some false.
Proof.
  assert (Hfound : findOpcodes bytecode opcode = Some true ->
                   opcode ∈ bytecode /\ vm.IsPush opcode = false).
  { intros (Hnp & j & _ & Hj)%findOpcodes_true_iff.
    split; [|exact Hnp]. apply list_elem_of_lookup. eauto. }
  split; [exact Hfound|]. split.
  - intros Habsent.
    destruct (findOpcodes_from_total bytecode opcode 0) as [[|] Hb];
      [|exact Hb].
    destruct (Hfound Hb) as [Hin _]. contradiction.
  - apply findOpcodes_from_past_end. cbn. lia.
Qed.

(** X2: on bytecode without push-class bytes the scan is a membership
    test. *)
Theorem findOpcodes_push_free (bytecode : list byte) (opcode : vm.OpCode) :
  (forall b, b ∈ bytecode -> vm.IsPush b = false) ->
  findOpcodes bytecode opcode = Some (bool_decide (opcode ∈ bytecode)).
Proof.
  intros Hfree.
  assert (Hevery : forall j, j <= length bytecode -> instr_at bytecode j).
  { induction j as [|j IH]; intros Hj; [constructor|].
    destruct (lookup_lt_is_Some_2 bytecode j ltac:(lia)) as [b Hb].
    pose proof (instr_at_next bytecode j b (IH ltac:(lia)) Hb) as Hnext.
    unfold next_instr in Hnext.
    rewrite (Hfree b) in Hnext by (apply list_elem_of_lookup; eauto).
    replace (S j) with (j + 1) by lia. exact Hnext. }
  destruct (decide (opcode ∈ bytecode)) as [Hin|Hout].
  - rewrite (bool_decide_eq_true_2 _ Hin).
    apply findOpcodes_true_iff. split; [apply Hfree, Hin|].
    apply list_elem_of_lookup in Hin as [j Hj].
    exists j. split; [|exact Hj].
    apply Hevery. apply lookup_lt_Some in Hj. lia.
  - rewrite (bool_decide_eq_false_2 _ Hout).
    destruct (findOpcodes_from_total bytecode opcode 0) as [[|] Hb];
      [|exact Hb].
    apply findOpcodes_true_iff in Hb as (_ & j & _ & Hj).
    exfalso. apply Hout, list_elem_of_lookup. eauto.
Qed.

(** X3: the scan by list recursion: a leading push-class byte hands the
    scan to what follows its operand, a leading byte equal to the target
    ends it, and any other leading byte hands it to the tail. *)
Theorem findOpcodes_cons (op : vm.OpCode) (rest : list byte)
  (opcode : vm.OpCode) :
  findOpcodes (op :: rest) opcode =
  if vm.IsPush op then findOpcodes (drop (push_operands op) rest) opcode
  else if Byte.eqb op opcode then Some true
  else findOpcodes rest opcode.
Proof.
  unfold findOpcodes at 1. rewrite findOpcodes_from_step.
  unfold scan_step. cbn [length lookup list_lookup Nat.ltb Nat.leb].
  destruct (vm.IsPush op).
  - destruct (le_lt_dec (push_operands op) (length rest)) as [Hfits|Hshort].
    + rewrite <- (take_drop (push_operands op) rest) at 1.
      change (op :: take (push_operands op) rest
                 ++ drop (push_operands op) rest)
        with ((op :: take (push_operands op) rest)
                ++ drop (push_operands op) rest).
      replace (0 + push_operands op + 1)
        with (length (op :: take (push_operands op) rest) + 0)
        by (cbn; rewrite length_take; lia).
      apply findOpcodes_from_shift.
    + rewrite drop_ge by lia.
      rewrite findOpcodes_from_past_end by (cbn; lia).
      symmetry. apply findOpcodes_from_past_end. cbn. lia.
  - destruct (Byte.eqb op opcode); [reflexivity|].
    apply (findOpcodes_from_shift [op] rest opcode 0).
Qed.

(** X4: two fragments, the first ending on an instruction boundary: the
    target is found in their concatenation exactly when it is found in one
    of them. *)
Theorem findOpcodes_app (a b : list byte) (opcode : vm.OpCode) :
  instr_at a (length a) ->
  exists found_a found_b,
    findOpcodes a opcode = Some found_a /\
    findOpcodes b opcode = Some found_b /\
    findOpcodes (a ++ b) opcode = Some (found_a || found_b).
Proof.
  intros Hend.
  assert (Hfrom : forall i, instr_at a i -> i <= length a ->
    findOpcodes_from (a ++ b) opcode i =
    match findOpcodes_from a opcode i with
    | Some true => Some true
    | _ => findOpcodes b opcode
    end).
  { induction i as [i IH] using (cursor_ind a). intros Hi Hle.
    destruct (decide (i = length a)) as [->|Hne].
    - rewrite (findOpcodes_from_past_end a) by lia.
      replace (length a) with (length a + 0) at 1 by lia.
      apply findOpcodes_from_shift.
    - assert (Hlt : i < length a) by lia.
      destruct (lookup_lt_is_Some_2 a i Hlt) as [op Hop].
      pose proof (instr_at_next a i op Hi Hop) as Hnext.
      pose proof (instr_at_chain a (length a) i (length a) op Hi Hend
                    ltac:(lia) Hop) as Hin.
      pose proof (next_instr_gt i op) as Hgt.
      rewrite (findOpcodes_from_step (a ++ b)), (findOpcodes_from_step a).
      unfold scan_step. rewrite length_app, (lookup_app_l a b) by exact Hlt.
      destruct (Nat.ltb_spec i (length a + length b)); [|lia].
      destruct (Nat.ltb_spec i (length a)); [|lia].
      rewrite Hop. unfold next_instr in *.
      destruct (vm.IsPush op).
      + apply IH; assumption.
      + destruct (Byte.eqb op opcode); [reflexivity|].
        apply IH; assumption. }
  destruct (findOpcodes_from_total a opcode 0) as [fa Ha].
  destruct (findOpcodes_from_total b opcode 0) as [fb Hb].
  exists fa, fb. split; [exact Ha|]. split; [exact Hb|].
  unfold findOpcodes in *.
  rewrite (Hfrom 0 (instr_at_start a) ltac:(lia)), Ha.
  destruct fa; [reflexivity | exact Hb].
Qed.

(** X19: the immediate data of push-class instructions is never inspected:
    two sequences of the same length that agree everywhere outside the
    immediate data of the first get the same answer. *)
Theorem findOpcodes_ignores_push_data (bytecode other : list byte)
  (opcode : vm.OpCode) :
  length other = length bytecode ->
  (forall j, ~ push_data_at bytecode j -> other !! j = bytecode !! j) ->
  findOpcodes other opcode = findOpcodes bytecode opcode.
Proof.
  intros Hlen Hsame. unfold findOpcodes.
  assert (Hfrom : forall i, instr_at bytecode i ->
    findOpcodes_from other opcode i = findOpcodes_from bytecode opcode i).
  { induction i as [i IH] using (cursor_ind bytecode). intros Hi.
    rewrite (findOpcodes_from_step other), (findOpcodes_from_step bytecode).
    unfold scan_step. rewrite Hlen.
    rewrite (Hsame i)
      by (intros Hdata; exact (push_data_not_instr bytecode i Hdata Hi)).
    destruct (Nat.ltb_spec i (length bytecode)) as [Hlt|]; [|reflexivity].
    destruct (bytecode !! i) as [op|] eqn:Hop; [|reflexivity].
    pose proof (instr_at_next bytecode i op Hi Hop) as Hnext.
    unfold next_instr in Hnext.
    destruct (vm.IsPush op).
    - apply IH; [lia | exact Hlt | exact Hnext].
    - destruct (Byte.eqb op opcode); [reflexivity|].
      apply IH; [lia | exact Hlt | exact Hnext]. }
  apply Hfrom. constructor.
Qed.

End ScannerLists.

(** ** The tracer over runs *)

Section TracerRuns.
Context {VM : vm.Ops} {JSON : json.Codec} {HEX : HexRender}.

Lemma lets_through_passes t input :
  lets_through t input = true <-> passes_filter t input.
Proof.
  unfold lets_through, passes_filter.
  rewrite andb_true_iff, orb_true_iff, negb_true_iff, String.eqb_neq,
    String.eqb_eq, bool_decide_eq_true. reflexivity.
Qed.

Lemma lets_through_config t1 t2 input :
  config t1 = config t2 -> lets_through t1 input = lets_through t2 input.
Proof. unfold lets_through. intros ->. reflexivity. Qed.

(** [validateAndStoreOpCode] in closed form. *)
Lemma validateAndStoreOpCode_closed t input to :
  validateAndStoreOpCode t input to
  = Some (if lets_through t input then store t input to else t).
Proof.
  unfold validateAndStoreOpCode, lets_through.
  destruct (String.eqb (OpCode (config t)) "inv"); [reflexivity|].
  destruct (String.eqb (OpCode (config t)) ""); [reflexivity|]. cbn.
  destruct (findOpcodes_from_total input
              (vm.StringToOp (OpCode (config t))) 0) as [found Hfound].
  unfold findOpcodes. rewrite Hfound. cbn.
  destruct found; reflexivity.
Qed.

(** The three things an invocation can do. *)
Lemma invoke_cases t h :
  (exists err, h = OnStop err /\ invoke t h = Some (Stop t err)) \/
  (is_Stop h = false /\ invoke t h = Some t) \/
  (exists input to,
     is_Stop h = false /\ creation_event h = Some (input, to) /\
     lets_through t input = true /\
     invoke t h = Some (store t input to)).
Proof.
  destruct h; cbn; eauto.
  - unfold CaptureStart. destruct create; [|eauto].
    rewrite validateAndStoreOpCode_closed.
    destruct (lets_through t input) eqn:Hlets; [|eauto].
    right. right. exists input, to. auto.
  - unfold CaptureEnter. destruct (0 <? interrupt t)%N; [eauto|].
    destruct (Byte.eqb typ vm.CREATE || Byte.eqb typ vm.CREATE2); [|eauto].
    rewrite validateAndStoreOpCode_closed.
    destruct (lets_through t input) eqn:Hlets; [|eauto].
    right. right. exists input, to. auto.
Qed.

Lemma invoke_all_app t hs1 hs2 :
  invoke_all t (hs1 ++ hs2) = invoke_all t hs1 ≫= fun t1 => invoke_all t1 hs2.
Proof.
  revert t. induction hs1 as [|h hs1 IH]; intros t; cbn; [reflexivity|].
  destruct (invoke t h) as [t1|]; cbn; [apply IH | reflexivity].
Qed.

(** Induction over a run, one invocation at a time. *)
Lemma run_ind (P : contractTracer -> list hook -> contractTracer -> Prop) :
  (forall t, P t [] t) ->
  (forall t h t1 hs t',
     invoke t h = Some t1 -> invoke_all t1 hs = Some t' ->
     P t1 hs t' -> P t (h :: hs) t') ->
  forall t hs, exists t', invoke_all t hs = Some t' /\ P t hs t'.
Proof.
  intros Hnil Hcons t hs. revert t.
  induction hs as [|h hs IH]; intros t; cbn; [eauto|].
  assert (Hone : exists t1, invoke t h = Some t1).
  { destruct (invoke_cases t h)
      as [(err & _ & Hi) | [(_ & Hi) | (input & to & _ & _ & _ & Hi)]];
      eauto. }
  destruct Hone as [t1 Hone]. rewrite Hone. cbn.
  destruct (IH t1) as (t' & Hrun & HP). eauto.
Qed.

(** X5: a run of hook invocations never faults, whatever the hooks and
    their arguments, and leaves the configuration as it was. *)
Theorem invoke_all_never_faults (t : contractTracer) (hs : list hook) :
  exists t', invoke_all t hs = Some t' /\ config t' = config t.
Proof.
  apply (run_ind (fun t _ t' => config t' = config t)); [reflexivity|].
  intros t0 h t1 hs0 t' Hone _ Hrest. rewrite Hrest.
  destruct (invoke_cases t0 h)
    as [(err & _ & Hi) | [(_ & Hi) | (input & to & _ & _ & _ & Hi)]];
    rewrite Hi in Hone; injection Hone as <-; reflexivity.
Qed.

(** X6: after a run the recorded reason is the argument of the last [Stop]
    (the earlier reason if the run has none) and the flag is [1] if the run
    has a [Stop] (its earlier value if not); so a flag that is set stays
    set. *)
Theorem invoke_all_control (t : contractTracer) (hs : list hook) :
  exists t',
    invoke_all t hs = Some t' /\
    reason t' = final_reason (reason t) hs /\
    interrupt t' = final_flag (interrupt t) hs /\
    (interrupt t <> 0%N -> interrupt t' <> 0%N).
Proof.
  apply (run_ind (fun t hs t' =>
    reason t' = final_reason (reason t) hs /\
    interrupt t' = final_flag (interrupt t) hs /\
    (interrupt t <> 0%N -> interrupt t' <> 0%N))); [auto|].
  intros t0 h t1 hs0 t' Hone _ (Hreason & Hflag & Hset).
  unfold final_reason, final_flag in *.
  destruct (invoke_cases t0 h)
    as [(err & -> & Hi) | [(Hns & Hi) | (input & to & Hns & _ & _ & Hi)]];
    rewrite Hi in Hone; injection Hone as <-; cbn in *.
  - split; [exact Hreason|]. split; [exact Hflag|].
    intros _. apply Hset. lia.
  - destruct h; try discriminate Hns; auto.
  - destruct h; try discriminate Hns; auto.
Qed.

(** X7: a run never removes an address from the mapping: every key present
    before is present after, and the mapping has not shrunk. *)
Theorem invoke_all_keeps_addresses (t : contractTracer) (hs : list hook) :
  exists t',
    invoke_all t hs = Some t' /\
    (forall k, is_Some (Addrs t !! k) -> is_Some (Addrs t' !! k)) /\
    size (Addrs t) <= size (Addrs t').
Proof.
  apply (run_ind (fun t _ t' =>
    (forall k, is_Some (Addrs t !! k) -> is_Some (Addrs t' !! k)) /\
    size (Addrs t) <= size (Addrs t'))); [auto|].
  intros t0 h t1 hs0 t' Hone _ [Hkeys Hsize].
  destruct (invoke_cases t0 h)
    as [(err & _ & Hi) | [(_ & Hi) | (input & to & _ & _ & _ & Hi)]];
    rewrite Hi in Hone; injection Hone as <-; cbn in *; [auto | auto |].
  split.
  - intros k Hk. apply Hkeys. apply lookup_insert_is_Some'. auto.
  - etransitivity; [|exact Hsize].
    rewrite map_size_insert. destruct (Addrs t0 !! addrToHex to); cbn; lia.
Qed.

(** X8: every entry of the mapping after a run was there before the run or
    comes from a creation of the run that passes the filter: its key is
    [addrToHex] of that creation's address and its value the observation of
    that creation's input. *)
Theorem invoke_all_provenance (t : contractTracer) (hs : list hook) :
  exists t',
    invoke_all t hs = Some t' /\
    forall k v,
      Addrs t' !! k = Some v ->
      Addrs t !! k = Some v \/
      exists h input to,
        h ∈ hs /\ creation_event h = Some (input, to) /\
        passes_filter t input /\
        k = addrToHex to /\ v = observation t input.
Proof.
  cut (exists t',
         invoke_all t hs = Some t' /\
         config t' = config t /\
         forall k v,
           Addrs t' !! k = Some v ->
           Addrs t !! k = Some v \/
           exists h input to,
             h ∈ hs /\ creation_event h = Some (input, to) /\
             passes_filter t input /\
             k = addrToHex to /\ v = observation t input).
  { intros (t' & Hrun & _ & Hprov). eauto. }
  apply (run_ind (fun t hs t' =>
    config t' = config t /\
    forall k v,
      Addrs t' !! k = Some v ->
      Addrs t !! k = Some v \/
      exists h input to,
        h ∈ hs /\ creation_event h = Some (input, to) /\
        passes_filter t input /\
        k = addrToHex to /\ v = observation t input)).
  - auto.
  - intros t0 h t1 hs0 t' Hone _ [Hcfg Hprov].
    assert (Hlater : forall k v,
      Addrs t' !! k = Some v ->
      Addrs t1 !! k = Some v \/
      exists h0 input to,
        h0 ∈ h :: hs0 /\ creation_event h0 = Some (input, to) /\
        passes_filter t1 input /\
        k = addrToHex to /\ v = observation t1 input).
    { intros k v Hkv. destruct (Hprov k v Hkv)
        as [Hold | (h0 & input & to & Hin & Hrest)]; [auto|].
      right. exists h0, input, to. split; [right; exact Hin | exact Hrest]. }
    clear Hprov.
    destruct (invoke_cases t0 h)
      as [(err & _ & Hi) | [(_ & Hi) | (input & to & _ & Hev & Hlets & Hi)]];
      rewrite Hi in Hone; injection Hone as <-; cbn in *;
      (split; [exact Hcfg|]); [exact Hlater | exact Hlater |].
    intros k v Hkv. destruct (Hlater k v Hkv)
      as [Hold | (h0 & input0 & to0 & Hin & Hev0 & Hpass & -> & ->)].
    + apply lookup_insert_Some in Hold as [[<- <-] | [_ Hold]]; [|auto].
      right. exists h, input, to. split; [left|].
      split; [exact Hev|]. split; [apply lets_through_passes, Hlets|auto].
    + right. exists h0, input0, to0. auto.
Qed.

(** X9: the invocations of [CaptureEnd], [CaptureState], [CaptureFault] and
    [CaptureExit], of [CaptureStart] without [create] and of [CaptureEnter]
    for a frame that is not a creation can be dropped from a run without
    changing its outcome. *)
Theorem invoke_all_filter_acts (t : contractTracer) (hs : list hook) :
  invoke_all t (List.filter acts hs) = invoke_all t hs.
Proof.
  revert t. induction hs as [|h hs IH]; intros t; [reflexivity|].
  cbn [List.filter]. destruct (acts h) eqn:Hacts.
  - cbn. destruct (invoke t h); cbn; [apply IH | reflexivity].
  - rewrite IH. cbn.
    assert (Hsame : invoke t h = Some t).
    { unfold acts in Hacts.
      destruct (invoke_cases t h)
        as [(err & -> & _) | [(_ & Hi) | (input & to & _ & Hev & _ & _)]];
        [discriminate Hacts | exact Hi |].
      rewrite Hev in Hacts. discriminate Hacts. }
    rewrite Hsame. reflexivity.
Qed.

(** X10: once the flag is set, a run without a creating [CaptureStart]
    leaves the mapping unchanged. *)
Theorem invoke_all_interrupted (t : contractTracer) (hs : list hook) :
  interrupt t <> 0%N ->
  Forall (fun h => creating_start h = false) hs ->
  exists t', invoke_all t hs = Some t' /\ Addrs t' = Addrs t.
Proof.
  intros Hset Hnone. revert t Hset.
  induction Hnone as [|h hs Hh _ IH]; intros t Hset; cbn; [eauto|].
  destruct (invoke_interrupted t h Hset) as (t1 & Hone & Hsame & Hset1).
  { intros from to input gas value ->. discriminate Hh. }
  rewrite Hone. cbn. destruct (IH t1 Hset1) as (t' & Hrun & Hsame').
  exists t'. split; [exact Hrun | congruence].
Qed.

Lemma store_store t input to :
  store (store t input to) input to = store t input to.
Proof.
  unfold store, set_Addrs, observation. cbn. f_equal. apply insert_insert_eq.
Qed.

Lemma store_commute t input1 to1 input2 to2 :
  addrToHex to1 <> addrToHex to2 ->
  store (store t input1 to1) input2 to2
  = store (store t input2 to2) input1 to1.
Proof.
  intros Hne. unfold store, set_Addrs, observation. cbn. f_equal.
  apply insert_insert_ne. congruence.
Qed.

(** X11: recording the same creation a second time changes nothing. *)
Theorem validateAndStoreOpCode_idempotent (t : contractTracer)
  (input : list byte) (to : Address) :
  validateAndStoreOpCode t input to
    ≫= (fun t' => validateAndStoreOpCode t' input to)
  = validateAndStoreOpCode t input to.
Proof.
  rewrite validateAndStoreOpCode_closed. cbn.
  rewrite validateAndStoreOpCode_closed.
  destruct (lets_through t input) eqn:Hlets.
  - rewrite (lets_through_config (store t input to) t) by reflexivity.
    rewrite Hlets, store_store. reflexivity.
  - rewrite Hlets. reflexivity.
Qed.

(** X12: creations at addresses with different keys can be recorded in
    either order, with the same resulting tracer. *)
Theorem validateAndStoreOpCode_commutes (t : contractTracer)
  (input1 input2 : list byte) (to1 to2 : Address) :
  addrToHex to1 <> addrToHex to2 ->
  validateAndStoreOpCode t input1 to1
    ≫= (fun t1 => validateAndStoreOpCode t1 input2 to2)
  = validateAndStoreOpCode t input2 to2
      ≫= (fun t2 => validateAndStoreOpCode t2 input1 to1).
Proof.
  intros Hne. rewrite !validateAndStoreOpCode_closed. cbn.
  rewrite !validateAndStoreOpCode_closed.
  pose proof (lets_through_config (store t input1 to1) t input2 eq_refl)
    as Hafter1.
  pose proof (lets_through_config (store t input2 to2) t input1 eq_refl)
    as Hafter2.
  destruct (lets_through t input1) eqn:H1;
    destruct (lets_through t input2) eqn:H2;
    rewrite ?Hafter1, ?Hafter2, ?H1, ?H2; try reflexivity.
  f_equal. apply store_commute, Hne.
Qed.

(** X13: construction fails exactly when a configuration is present and
    [json.Unmarshal] rejects it, and the error is the decoder's. *)
Theorem NewContractTracer_fails_iff (cfg : option RawMessage) (e : error) :
  NewContractTracer cfg = inr e <->
  exists raw, cfg = Some raw /\ json.Unmarshal raw = inr e.
Proof.
  unfold NewContractTracer, decode_config. split.
  - destruct cfg as [raw|].
    + destruct (json.Unmarshal raw) as [c|e'] eqn:Hdec.
      * destruct (_ && _ && _); discriminate.
      * intros [= <-]. eauto.
    + destruct (_ && _ && _); discriminate.
  - intros (raw & -> & ->). reflexivity.
Qed.

(** X14: a constructed tracer whose filter name parses to the zero code
    carries the sentinel, the empty name or [STOP]: no other name makes the
    scanner look for the zero byte. *)
Theorem NewContractTracer_zero_target (cfg : option RawMessage)
  (t : contractTracer) :
  NewContractTracer cfg = inl t ->
  vm.StringToOp (OpCode (config t)) = x00 ->
  OpCode (config t) = "inv" \/ OpCode (config t) = "" \/
  OpCode (config t) = "STOP".
Proof.
  unfold NewContractTracer.
  destruct (decode_config cfg) as [c|e]; [|discriminate].
  pose proof (sentinel_condition c) as Hcond.
  destruct (_ && _ && _); intros [= <-]; cbn; [auto|].
  intros Hzero.
  destruct (decide (OpCode c = "")) as [|Hne]; [auto|].
  destruct (decide (OpCode c = "STOP")) as [|Hns]; [auto|].
  assert (Hno : false = true) by (apply Hcond; auto). discriminate.
Qed.

(** A tracer that lets nothing through is inert. *)
Lemma invoke_all_inert t hs :
  (forall input, lets_through t input = false) ->
  exists t', invoke_all t hs = Some t' /\ Addrs t' = Addrs t.
Proof.
  intros Hnone.
  destruct (run_ind (fun t _ t' =>
              (forall input, lets_through t input = false) ->
              Addrs t' = Addrs t)) with (t := t) (hs := hs)
    as (t' & Hrun & Hsame); [auto| |eauto].
  intros t0 h t1 hs0 t2 Hone _ IH Hnone0.
  destruct (invoke_cases t0 h)
    as [(err & _ & Hi) | [(_ & Hi) | (input & to & _ & _ & Hlets & Hi)]];
    rewrite Hi in Hone; try injection Hone as <-.
  - apply IH. exact Hnone0.
  - apply IH. exact Hnone0.
  - rewrite Hnone0 in Hlets. discriminate.
Qed.

(** X15: end to end, for a name that the instruction table knows and whose
    code is neither zero nor push-class: the constructed tracer records a
    creation exactly when that code heads an instruction of the creation's
    input. *)
Theorem recognised_filter_records_genuine (cfg : option RawMessage)
  (c : contractTracerConfig) :
  decode_config cfg = inl c ->
  vm.StringToOp (OpCode c) <> x00 ->
  vm.IsPush (vm.StringToOp (OpCode c)) = false ->
  OpCode c <> "inv" -> OpCode c <> "" ->
  exists t,
    NewContractTracer cfg = inl t /\
    forall h input to,
      creation_event h = Some (input, to) ->
      ((exists j, genuine_at input (vm.StringToOp (OpCode c)) j) ->
       invoke t h = Some (store t input to)) /\
      (~ (exists j, genuine_at input (vm.StringToOp (OpCode c)) j) ->
       invoke t h = Some t).
Proof.
  intros Hdec Hop Hplain Hinv Hempty.
  unfold NewContractTracer. rewrite Hdec.
  pose proof (sentinel_condition c) as Hcond.
  destruct (_ && _ && _).
  { destruct (proj1 Hcond eq_refl) as (Hzero & _). contradiction. }
  eexists. split; [reflexivity|].
  intros h input to Hev.
  rewrite (invoke_running
    {| Addrs := ∅; config := c; interrupt := 0%N; reason := None |}
    h input to eq_refl Hev).
  rewrite validateAndStoreOpCode_closed. unfold lets_through. cbn.
  rewrite (proj2 (String.eqb_neq _ _) Hinv).
  rewrite (proj2 (String.eqb_neq _ _) Hempty). cbn.
  pose proof (findOpcodes_true_iff input (vm.StringToOp (OpCode c))) as Hiff.
  split; intros Hgen.
  - rewrite bool_decide_eq_true_2; [reflexivity|]. apply Hiff. auto.
  - rewrite bool_decide_eq_false_2; [reflexivity|].
    intros Hfound. apply Hgen, Hiff, Hfound.
Qed.

(** X16: a filter name whose code is push-class records nothing: after any
    run of the constructed tracer the mapping is empty. *)
Theorem push_filter_records_nothing (cfg : option RawMessage)
  (c : contractTracerConfig) :
  decode_config cfg = inl c ->
  OpCode c <> "" ->
  vm.IsPush (vm.StringToOp (OpCode c)) = true ->
  exists t,
    NewContractTracer cfg = inl t /\
    forall hs, exists t', invoke_all t hs = Some t' /\ Addrs t' = ∅.
Proof.
  intros Hdec Hempty Hpush.
  unfold NewContractTracer. rewrite Hdec.
  destruct (_ && _ && _); eexists; (split; [reflexivity|]); intros hs.
  - destruct (invoke_all_inert (set_OpCode
      {| Addrs := ∅; config := c; interrupt := 0%N; reason := None |} "inv")
      hs) as (t' & Hrun & Hsame); [reflexivity|].
    exists t'. split; [exact Hrun | exact Hsame].
  - destruct (invoke_all_inert
      {| Addrs := ∅; config := c; interrupt := 0%N; reason := None |} hs)
      as (t' & Hrun & Hsame).
    + intros input. unfold lets_through. cbn.
      rewrite (proj2 (String.eqb_neq _ _) Hempty). cbn.
      rewrite bool_decide_eq_false_2; [apply andb_false_r|].
      intros (Hplain & _)%findOpcodes_true_iff. congruence.
    + exists t'. split; [exact Hrun | exact Hsame].
Qed.

(** X17: what [GetResult] returns after a run: when the mapping
    serializes, the serialized mapping together with the argument of the
    run's last [Stop] (the earlier reason if there was none) as the error;
    when it does not, no payload and the serializer's error. *)
Theorem GetResult_after_run (t : contractTracer) (hs : list hook) :
  exists t',
    invoke_all t hs = Some t' /\
    (forall res, json.Marshal (Addrs t') = inl res ->
       GetResult t' = (Some res, final_reason (reason t) hs)) /\
    (forall e, json.Marshal (Addrs t') = inr e ->
       GetResult t' = (None, Some e)).
Proof.
  destruct (run_ind (fun t hs t' => reason t' = final_reason (reason t) hs))
    with (t := t) (hs := hs) as (t' & Hrun & Hreason); [reflexivity| |].
  { intros t0 h t1 hs0 t2 Hone _ IH. rewrite IH. unfold final_reason. cbn.
    destruct (invoke_cases t0 h)
      as [(err & -> & Hi) | [(Hns & Hi) | (input & to & Hns & _ & _ & Hi)]];
      rewrite Hi in Hone; injection Hone as <-; cbn; [reflexivity | |];
      destruct h; try discriminate Hns; reflexivity. }
  exists t'. split; [exact Hrun|]. unfold GetResult. split.
  - intros res ->. rewrite Hreason. reflexivity.
  - intros e ->. reflexivity.
Qed.

(** X18: no observation is lost: a creation that passes the filter and
    arrives before any cancellation has its address in the mapping at the
    end of the run, whatever follows it. *)
Theorem invoke_all_records_creation (t : contractTracer)
  (hs1 hs2 : list hook) (h : hook) (input : list byte) (to : Address) :
  interrupt t = 0%N ->
  Forall (fun h0 => is_Stop h0 = false) hs1 ->
  creation_event h = Some (input, to) ->
  passes_filter t input ->
  exists t',
    invoke_all t (hs1 ++ h :: hs2) = Some t' /\
    is_Some (Addrs t' !! addrToHex to).
Proof.
  intros Hrun0 Hnostop Hev Hpass.
  assert (Hbefore : exists t1,
    invoke_all t hs1 = Some t1 /\ config t1 = config t /\
    interrupt t1 = 0%N).
  { clear Hev Hpass. revert t Hrun0.
    induction Hnostop as [|h0 hs0 Hh0 _ IH]; intros t Hrun0; cbn; [eauto|].
    destruct (invoke_cases t h0)
      as [(err & -> & _) | [(_ & Hi) | (i0 & to0 & _ & _ & _ & Hi)]];
      [discriminate Hh0 | |]; rewrite Hi; cbn.
    - apply IH, Hrun0.
    - destruct (IH (store t i0 to0) Hrun0) as (t1 & Hall & Hcfg & Hflag).
      eauto. }
  destruct Hbefore as (t1 & Hall1 & Hcfg1 & Hflag1).
  assert (Hafter : forall t2, exists t',
    invoke_all t2 hs2 = Some t' /\
    forall k, is_Some (Addrs t2 !! k) -> is_Some (Addrs t' !! k)).
  { intros t2. apply (run_ind (fun t _ t' =>
      forall k, is_Some (Addrs t !! k) -> is_Some (Addrs t' !! k)));
      [auto|].
    intros t0 h0 t3 hs0 t4 Hone _ IH k Hk. apply IH.
    destruct (invoke_cases t0 h0)
      as [(err & _ & Hi) | [(_ & Hi) | (i0 & to0 & _ & _ & _ & Hi)]];
      rewrite Hi in Hone; injection Hone as <-; cbn; [exact Hk | exact Hk |].
    apply lookup_insert_is_Some'. auto. }
  destruct (Hafter (store t1 input to)) as (t' & Hall2 & Hkeys).
  exists t'. split.
  - rewrite invoke_all_app, Hall1. cbn.
    rewrite (invoke_running t1 h input to Hflag1 Hev).
    rewrite validateAndStoreOpCode_closed.
    rewrite (proj2 (lets_through_passes t1 input)).
    + cbn. exact Hall2.
    + unfold passes_filter in *. rewrite Hcfg1. exact Hpass.
  - apply Hkeys. cbn. rewrite lookup_insert_eq. eauto.
Qed.

End TracerRuns.

(** ** The further properties at concrete inputs *)

Section ConcreteRuns.
Import scenario cases.
#[local] Existing Instance evm.ops.
#[local] Existing Instance sample.codec.
#[local] Existing Instance hex_render.

Lemma findOpcodes_push_free_witness :
  (forall b, b ∈ [x00; xff] -> vm.IsPush b = false) /\
  findOpcodes [x00; xff] xff = Some (bool_decide (xff ∈ [x00; xff])).
Proof.
  assert (Hfree : forall b, b ∈ [x00; xff] -> vm.IsPush b = false).
  { intros b [->|[->|Hnil%elem_of_nil]%elem_of_cons]%elem_of_cons;
      [reflexivity | reflexivity | contradiction]. }
  split; [exact Hfree|].
  exact (findOpcodes_push_free [x00; xff] xff Hfree).
Defined.

Lemma findOpcodes_app_witness :
  instr_at [x60; x00] (length [x60; x00]) /\
  exists found_a found_b,
    findOpcodes [x60; x00] xff = Some found_a /\
    findOpcodes [xff] xff = Some found_b /\
    findOpcodes ([x60; x00] ++ [xff]) xff = Some (found_a || found_b).
Proof.
  assert (Hend : instr_at [x60; x00] (length [x60; x00])).
  { exact (instr_at_next [x60; x00] 0 x60 (instr_at_start _) eq_refl). }
  split; [exact Hend|].
  exact (findOpcodes_app [x60; x00] [xff] xff Hend).
Defined.

Lemma findOpcodes_ignores_push_data_witness :
  length [x60; x00; xff] = length [x60; xff; xff] /\
  findOpcodes [x60; x00; xff] xff = findOpcodes [x60; xff; xff] xff.
Proof.
  split; [reflexivity|].
  apply findOpcodes_ignores_push_data; [reflexivity|].
  intros [|[|j]] Hnot; [reflexivity | | reflexivity].
  exfalso. apply Hnot. exists 0, x60.
  split; [constructor|]. split; [reflexivity|]. split; [reflexivity|].
  vm_compute. auto.
Defined.

Lemma invoke_all_interrupted_witness :
  interrupt (Stop fresh timeout) <> 0%N /\
  exists t',
    invoke_all (Stop fresh timeout)
      [creation_at created push_then_stop; frame_exit] = Some t' /\
    Addrs t' = Addrs (Stop fresh timeout).
Proof.
  assert (Hset : interrupt (Stop fresh timeout) <> 0%N) by discriminate.
  split; [exact Hset|].
  apply (invoke_all_interrupted (Stop fresh timeout)
           [creation_at created push_then_stop; frame_exit] Hset).
  repeat constructor.
Defined.

Lemma validateAndStoreOpCode_commutes_witness :
  addrToHex created <> addrToHex contract /\
  validateAndStoreOpCode fresh push_then_stop created
    ≫= (fun t1 => validateAndStoreOpCode t1 selfdestructing contract)
  = validateAndStoreOpCode fresh selfdestructing contract
      ≫= (fun t2 => validateAndStoreOpCode t2 push_then_stop created).
Proof.
  assert (Hne : addrToHex created <> addrToHex contract).
  { intros Heq. vm_compute in Heq. discriminate Heq. }
  split; [exact Hne|].
  exact (validateAndStoreOpCode_commutes fresh push_then_stop selfdestructing
           created contract Hne).
Defined.

Lemma NewContractTracer_zero_target_witness :
  NewContractTracer stop_document
  = inl {| Addrs := ∅;
           config := {| OpCode := "STOP"; WithByteCode := false |};
           interrupt := 0%N; reason := None |} /\
  vm.StringToOp "STOP" = x00 /\
  ("STOP" = "inv" \/ "STOP" = "" \/ "STOP" = "STOP")%string.
Proof.
  assert (Hnew : NewContractTracer stop_document
                 = inl {| Addrs := ∅;
                          config := {| OpCode := "STOP";
                                       WithByteCode := false |};
                          interrupt := 0%N; reason := None |})
    by reflexivity.
  assert (Hzero : vm.StringToOp "STOP" = x00) by reflexivity.
  split; [exact Hnew|]. split; [exact Hzero|].
  exact (NewContractTracer_zero_target stop_document _ Hnew Hzero).
Defined.

Lemma recognised_filter_records_genuine_witness :
  decode_config selfdestruct_document
  = inl {| OpCode := "SELFDESTRUCT"; WithByteCode := true |} /\
  exists t,
    NewContractTracer selfdestruct_document = inl t /\
    invoke t (deployment selfdestructing)
    = Some (store t selfdestructing created).
Proof.
  assert (Hdec : decode_config selfdestruct_document
                 = inl {| OpCode := "SELFDESTRUCT"; WithByteCode := true |})
    by reflexivity.
  assert (Hop : vm.StringToOp "SELFDESTRUCT" <> x00)
    by (vm_compute; discriminate).
  assert (Hplain : vm.IsPush (vm.StringToOp "SELFDESTRUCT") = false)
    by reflexivity.
  split; [exact Hdec|].
  destruct (recognised_filter_records_genuine selfdestruct_document
              {| OpCode := "SELFDESTRUCT"; WithByteCode := true |}
              Hdec Hop Hplain ltac:(discriminate) ltac:(discriminate))
    as (t & Hnew & Hrec).
  exists t. split; [exact Hnew|].
  apply (Hrec (deployment selfdestructing) selfdestructing created eq_refl).
  exists 2. split; [|reflexivity].
  exact (instr_at_next selfdestructing 0 x60
           (instr_at_start selfdestructing) eq_refl).
Defined.

Lemma push_filter_records_nothing_witness :
  decode_config push1_document
  = inl {| OpCode := "PUSH1"; WithByteCode := false |} /\
  vm.IsPush (vm.StringToOp "PUSH1") = true /\
  exists t,
    NewContractTracer push1_document = inl t /\
    exists t',
      invoke_all t [deployment push_then_stop] = Some t' /\ Addrs t' = ∅.
Proof.
  assert (Hdec : decode_config push1_document
                 = inl {| OpCode := "PUSH1"; WithByteCode := false |})
    by reflexivity.
  assert (Hpush : vm.IsPush (vm.StringToOp "PUSH1") = true) by reflexivity.
  split; [exact Hdec|]. split; [exact Hpush|].
  destruct (push_filter_records_nothing push1_document
              {| OpCode := "PUSH1"; WithByteCode := false |}
              Hdec ltac:(discriminate) Hpush) as (t & Hnew & Hnone).
  exists t. split; [exact Hnew | apply Hnone].
Defined.

Lemma invoke_all_records_creation_witness :
  interrupt fresh = 0%N /\
  passes_filter fresh push_then_stop /\
  exists t',
    invoke_all fresh
      ([inner_call []] ++ deployment push_then_stop :: [OnStop timeout])
    = Some t' /\
    is_Some (Addrs t' !! addrToHex created).
Proof.
  assert (Hpass : passes_filter fresh push_then_stop).
  { split; [discriminate | left; reflexivity]. }
  split; [reflexivity|]. split; [exact Hpass|].
  apply (invoke_all_records_creation fresh [inner_call []] [OnStop timeout]
           (deployment push_then_stop) push_then_stop created eq_refl);
    [repeat constructor | reflexivity | exact Hpass].
Defined.

End ConcreteRuns.
